(** * Data-link layer simulation: CRC, framing, sliding window

    A shallow embedding of [datalink.py] (helper functions [generate_crc]
    and [check_crc], class [DataLinkLayerNode], and the protocol part of
    [DataLinkSimulatorGUI]) together with the properties stated about it.

    Conventions of the embedding.
    - A Python [int] is a [Z].
    - A bit string or frame is a [list ascii]: a Python [str] whose
      characters have code points below 256.  On such characters [int(b)]
      succeeds exactly on ['0'..'9'].
    - A payload string is a [list N] of code points, the view that [ord]
      and [chr] give of it.
    - A raised exception is a value [Raise e] of the result type [res].
    - The dict [received_frames] is a [gmap Z (list N)].
    - Calls to [log] and [log_channel_message] append text to a Tk widget
      that the program never reads back; they are left out.  The
      sequence of payloads the receiver announces as delivered to the
      network layer (source lines 123 and 128) is kept as an output of
      [process_received_frame]. *)

From Stdlib Require Import ZArith Ascii String List Lia DecimalString.
From stdpp Require Import base list gmap strings.

Local Open Scope Z_scope.

(** ** Exceptions *)

Inductive exn : Type := ValueError | IndexError | AttributeError.

Inductive res (A : Type) : Type :=
| Ok (a : A)
| Raise (e : exn).
Arguments Ok {A} a.
Arguments Raise {A} e.

#[global] Instance res_ret : MRet res := fun A a => Ok a.
#[global] Instance res_bind : MBind res := fun A B k m =>
  match m with Ok a => k a | Raise e => Raise e end.

(** [[f(x) for x in l]], left to right, stopping at the first exception. *)
Fixpoint traverse {A B} (f : A -> res B) (l : list A) : res (list B) :=
  match l with
  | [] => Ok []
  | x :: l' => y ← f x; ys ← traverse f l'; Ok (y :: ys)
  end.

(** [for i in idxs: s = body(s, i)]. *)
Fixpoint for_range {S} (idxs : list nat) (body : S -> nat -> res S) (s : S)
  : res S :=
  match idxs with
  | [] => Ok s
  | i :: idxs' => s' ← body s i; for_range idxs' body s'
  end.

(** ** Python primitives *)

Definition bits (s : string) : list ascii := list_ascii_of_string s.

(** [l[i]] for an index [i >= 0]. *)
Definition py_get {A} (l : list A) (i : nat) : res A :=
  match l !! i with Some x => Ok x | None => Raise IndexError end.

(** [l[i]] for any integer index: negative indices count from the end. *)
Definition py_index {A} (l : list A) (i : Z) : res A :=
  let len := Z.of_nat (length l) in
  if 0 <=? i then py_get l (Z.to_nat i)
  else if 0 <=? i + len then py_get l (Z.to_nat (i + len))
  else Raise IndexError.

(** Slice bounds are clamped as Python does. *)
Definition slice_bound {A} (l : list A) (k : Z) : Z :=
  let len := Z.of_nat (length l) in
  if k <? 0 then Z.max 0 (k + len) else Z.min k len.

(** [l[a:b]] *)
Definition py_slice {A} (l : list A) (a b : Z) : list A :=
  let a' := slice_bound l a in
  let b' := slice_bound l b in
  take (Z.to_nat (b' - a')) (drop (Z.to_nat a') l).

(** [l[a:]] *)
Definition py_slice_from {A} (l : list A) (a : Z) : list A :=
  drop (Z.to_nat (slice_bound l a)) l.

(** [int(b)] for a one-character string. *)
Definition int_char (c : ascii) : res Z :=
  let n := Z.of_N (N_of_ascii c) in
  if (48 <=? n) && (n <=? 57) then Ok (n - 48) else Raise ValueError.

(** [str(b)] for an integer. *)
Definition str_int (z : Z) : list ascii :=
  list_ascii_of_string (NilZero.string_of_int (Z.to_int z)).

(** [int(s)] on the strings [check_crc] builds: the concatenation of
    [str(b)] for non-negative [b], hence decimal digits only.  The empty
    string raises [ValueError]. *)
Definition int_str (s : list ascii) : res Z :=
  match s with
  | [] => Raise ValueError
  | _ => ds ← traverse int_char s; Ok (fold_left (fun a d => 10 * a + d) ds 0)
  end.

(** ** CRC helpers (source lines 9-45) *)

(** [temp[i + j] = temp[i + j] ^ polynomial[j]] *)
Definition xor_into (polynomial : list Z) (i : nat) (temp : list Z) (j : nat)
  : res (list Z) :=
  t ← py_get temp (i + j)%nat;
  p ← py_get polynomial j;
  Ok (<[(i + j)%nat := Z.lxor t p]> temp).

(** Body of the outer loop, shared by both helpers:
    [if temp[i] == 1: for j in range(n): ...]. *)
Definition divide_at (polynomial : list Z) (temp : list Z) (i : nat)
  : res (list Z) :=
  b ← py_get temp i;
  if bool_decide (b = 1)
  then for_range (seq 0 (length polynomial)) (xor_into polynomial i) temp
  else Ok temp.

Definition generate_crc (data_bits polynomial_bits : list ascii)
  : res (list ascii) :=
  data ← traverse int_char data_bits;
  polynomial ← traverse int_char polynomial_bits;
  let n := length polynomial in
  let temp_data := data ++ replicate (n - 1)%nat 0 in
  temp_data ← for_range (seq 0 (length data)) (divide_at polynomial) temp_data;
  Ok (concat (map str_int (drop (length data) temp_data))).

Definition check_crc (received_data_with_crc polynomial_bits : list ascii)
  : res bool :=
  received_bits ← traverse int_char received_data_with_crc;
  polynomial ← traverse int_char polynomial_bits;
  let n := Z.of_nat (length polynomial) in
  let len := Z.of_nat (length received_bits) in
  temp_received ←
    for_range (seq 0 (Z.to_nat (len - n + 1))) (divide_at polynomial)
      received_bits;
  let remainder :=
    concat (map str_int (py_slice_from temp_received (len - n + 1))) in
  r ← int_str remainder;
  Ok (r =? 0).

(** ** Number formatting and parsing used by the framer *)

Fixpoint bin_pos (p : positive) (acc : list ascii) : list ascii :=
  match p with
  | xH => "1"%char :: acc
  | xO q => bin_pos q ("0"%char :: acc)
  | xI q => bin_pos q ("1"%char :: acc)
  end.

(** Binary digits of a non-negative magnitude, most significant first. *)
Definition bin_digits (n : N) : list ascii :=
  match n with
  | N0 => ["0"%char]
  | Npos p => bin_pos p []
  end.

Definition sign_prefix (z : Z) : list ascii :=
  if z <? 0 then ["-"%char] else [].

(** [bin(z)] *)
Definition bin (z : Z) : list ascii :=
  sign_prefix z ++ bits "0b" ++ bin_digits (Z.abs_N z).

(** [s.zfill(width)]: zeros go after a leading sign. *)
Definition zfill (width : nat) (s : list ascii) : list ascii :=
  let pad := replicate (width - length s)%nat "0"%char in
  match s with
  | c :: rest =>
      if bool_decide (c = "+"%char \/ c = "-"%char)
      then c :: pad ++ rest
      else pad ++ s
  | [] => pad
  end.

(** [format(z, '08b')] *)
Definition format_08b (z : Z) : list ascii :=
  zfill 8 (sign_prefix z ++ bin_digits (Z.abs_N z)).

(** [ord(char)] *)
Definition ord (char : N) : Z := Z.of_N char.

(** [chr(v)] *)
Definition chr (v : Z) : res N :=
  if (0 <=? v) && (v <=? 1114111) then Ok (Z.to_N v) else Raise ValueError.

Definition bit_char (c : ascii) : res Z :=
  if bool_decide (c = "0"%char) then Ok 0
  else if bool_decide (c = "1"%char) then Ok 1
  else Raise ValueError.

(** [int(s, 2)] on strings of decimal digits, which is all [unframe_data]
    passes to it (every character of the frame went through [int(b)] in
    [check_crc] first): defined on the non-empty strings of ['0'] and
    ['1'], [ValueError] otherwise. *)
Definition int_base2 (s : list ascii) : res Z :=
  match s with
  | [] => Raise ValueError
  | _ => ds ← traverse bit_char s; Ok (fold_left (fun a d => 2 * a + d) ds 0)
  end.

(** [range(0, n, step)] *)
Definition range_by (n step : nat) : list nat :=
  map (fun q => (q * step)%nat) (seq 0 ((n + step - 1) / step)%nat).

(** ** DataLinkLayerNode (source lines 49-141) *)

Record node : Type := Node {
  polynomial : list ascii;
  send_buffer : list (list N);
  next_frame_to_send : Z;
  expected_frame_ack : Z;
  window_size : Z;
  received_frames : gmap Z (list N);
  next_frame_to_deliver : Z
}.

(** [DataLinkLayerNode(name, gui_logger)] with the default polynomial. *)
Definition new_node : node :=
  {| polynomial := bits "1011";
     send_buffer := [];
     next_frame_to_send := 0;
     expected_frame_ack := 0;
     window_size := 3;
     received_frames := ∅;
     next_frame_to_deliver := 0 |}.

Definition frame_data (self : node) (data : list N) (sequence_number : Z)
  : res (list ascii) :=
  let seq_num_binary :=
    zfill 2 (py_slice_from (bin (sequence_number `mod` 4)) 2) in
  let data_bits := concat (map (fun char => format_08b (ord char)) data) in
  let frame_payload := seq_num_binary ++ data_bits in
  crc ← generate_crc frame_payload (polynomial self);
  Ok (frame_payload ++ crc).

(** Body of the decoding loop:
    [byte = data_bits[i:i+8]; if byte: data += chr(int(byte, 2))]. *)
Definition decode_unit (data_bits : list ascii) (data : list N) (i : nat)
  : res (list N) :=
  let byte := py_slice data_bits (Z.of_nat i) (Z.of_nat i + 8) in
  match byte with
  | [] => Ok data
  | _ => v ← int_base2 byte; c ← chr v; Ok (data ++ [c])
  end.

(** Returns [(sequence_number, data, is_corrupted)]. *)
Definition unframe_data (self : node) (frame : list ascii)
  : res (option Z * option (list N) * bool) :=
  if Z.of_nat (length frame) <? Z.of_nat (length (polynomial self)) - 1 + 2
  then Ok (None, None, true)
  else
    ok ← check_crc frame (polynomial self);
    let is_corrupted := negb ok in
    if is_corrupted then Ok (None, None, true)
    else
      let seq_num_binary := py_slice frame 0 2 in
      let data_bits :=
        py_slice frame 2 (- Z.of_nat (length (polynomial self)) + 1) in
      sequence_number ← int_base2 seq_num_binary;
      data ← for_range (range_by (length data_bits) 8)
               (decode_unit data_bits) [];
      Ok (Some sequence_number, Some data, false).

(** The [while] loop of [process_received_frame]: every iteration pops
    one key, so [size frames] iterations always suffice (see
    [drain_exit]).  The third component lists what is handed to the
    network layer, in order. *)
Fixpoint drain (fuel : nat) (frames : gmap Z (list N)) (next : Z)
  : gmap Z (list N) * Z * list (Z * list N) :=
  match fuel with
  | O => (frames, next, [])
  | S fuel' =>
      match frames !! next with
      | Some buffered_data =>
          let '(frames', next', out) :=
            drain fuel' (delete next frames) (next + 1) in
          (frames', next', (next, buffered_data) :: out)
      | None => (frames, next, [])
      end
  end.

(** Returns the node after the call, the acknowledgment ([None] for
    Python's [None]) and the deliveries to the network layer. *)
Definition process_received_frame (self : node) (sequence_number : option Z)
  (data : list N) : node * option Z * list (Z * list N) :=
  match sequence_number with
  | None => (self, None, [])
  | Some sequence_number =>
      if bool_decide (sequence_number = next_frame_to_deliver self) then
        let ack_to_send := sequence_number in
        let '(frames, next, out) :=
          drain (size (received_frames self)) (received_frames self)
            (next_frame_to_deliver self + 1) in
        ({| polynomial := polynomial self;
            send_buffer := send_buffer self;
            next_frame_to_send := next_frame_to_send self;
            expected_frame_ack := expected_frame_ack self;
            window_size := window_size self;
            received_frames := frames;
            next_frame_to_deliver := next |},
         Some ack_to_send,
         (sequence_number, data) :: out)
      else if bool_decide (sequence_number > next_frame_to_deliver self) then
        let ack_to_send :=
          if bool_decide (next_frame_to_deliver self > 0)
          then Some (next_frame_to_deliver self - 1) else None in
        ({| polynomial := polynomial self;
            send_buffer := send_buffer self;
            next_frame_to_send := next_frame_to_send self;
            expected_frame_ack := expected_frame_ack self;
            window_size := window_size self;
            received_frames :=
              <[sequence_number := data]> (received_frames self);
            next_frame_to_deliver := next_frame_to_deliver self |},
         ack_to_send,
         [])
      else (self, Some sequence_number, [])
  end.

(** ** The step driver (source lines 258-405) *)

(** The random draws one call of [simulate_channel_gui] may consume:
    whether the first [random.random()] falls below [loss_prob], whether
    the second falls below [0.3], and the entropy behind [randint]. *)
Record draws : Type := Draws {
  loss_hit : bool;
  error_hit : bool;
  index_entropy : nat
}.

(** [random.randint(lo, hi)]: some integer of [lo..hi], and a
    [ValueError] on an empty range. *)
Definition randint (lo hi : Z) (entropy : nat) : res Z :=
  if hi <? lo then Raise ValueError
  else Ok (lo + Z.of_nat entropy `mod` (hi - lo + 1)).

(** [None] is the lost frame. *)
Definition simulate_channel_gui (frame : list ascii)
  (introduce_error_flag : bool) (d : draws) : res (option (list ascii)) :=
  if loss_hit d then Ok None
  else if introduce_error_flag && error_hit d then
    error_index ← randint 0 (Z.of_nat (length frame) - 1) (index_entropy d);
    original_char ← py_index frame error_index;
    let corrupted_char :=
      if bool_decide (original_char = "0"%char) then "1"%char else "0"%char in
    Ok (Some (<[Z.to_nat error_index := corrupted_char]> frame))
  else Ok (Some frame).

(** The fields [sender] and [receiver] are always assigned together
    (lines 150-151, 301-302, 402-403); they are kept as one optional
    pair, [None] standing for both being [None]. *)
Record gui : Type := Gui {
  nodes : option (node * node);
  simulation_data : list (list N);
  is_running : bool
}.

Definition reset_simulation (g : gui) : gui :=
  {| nodes := None; simulation_data := []; is_running := false |}.

(** State after [DataLinkSimulatorGUI.__init__]. *)
Definition initial_gui : gui :=
  {| nodes := None; simulation_data := []; is_running := false |}.

Definition end_simulation (g : gui) : gui :=
  {| nodes := nodes g; simulation_data := simulation_data g;
     is_running := false |}.

(** [data_input] is the entry text after [strip()]; [loss_prob_ok] tells
    whether the loss-probability entry parses to a float in [0, 1]. *)
Definition start_simulation (g : gui) (data_input : list N)
  (loss_prob_ok : bool) : gui :=
  if is_running g then g
  else if bool_decide (data_input = []) then g
  else if negb loss_prob_ok then g
  else
    let simulation_data := map (fun c => [c]) data_input in
    {| nodes :=
         Some ({| polynomial := polynomial new_node;
                  send_buffer := send_buffer new_node ++ simulation_data;
                  next_frame_to_send := next_frame_to_send new_node;
                  expected_frame_ack := expected_frame_ack new_node;
                  window_size := window_size new_node;
                  received_frames := received_frames new_node;
                  next_frame_to_deliver := next_frame_to_deliver new_node |},
               new_node);
       simulation_data := simulation_data;
       is_running := true |}.

Definition can_send_new_frame (sender : node) : bool :=
  bool_decide (next_frame_to_send sender
               < Z.of_nat (length (send_buffer sender)))
  && bool_decide (next_frame_to_send sender
                  < expected_frame_ack sender + window_size sender).

(** Lines 338-342: frame the next unit and put it through the channel. *)
Definition channel_output (sender : node) (introduce_error_flag : bool)
  (d : draws) : res (option (list ascii)) :=
  data_char ← py_index (send_buffer sender) (next_frame_to_send sender);
  frame_to_send ← frame_data sender data_char (next_frame_to_send sender);
  simulate_channel_gui frame_to_send introduce_error_flag d.

(** Lines 357-358: the sender takes an acknowledgment. *)
Definition on_ack (sender : node) (ack_num_from_receiver : Z) : node :=
  if bool_decide (ack_num_from_receiver >= expected_frame_ack sender) then
    {| polynomial := polynomial sender;
       send_buffer := send_buffer sender;
       next_frame_to_send := next_frame_to_send sender;
       expected_frame_ack := ack_num_from_receiver + 1;
       window_size := window_size sender;
       received_frames := received_frames sender;
       next_frame_to_deliver := next_frame_to_deliver sender |}
  else sender.

(** Lines 344-365: what sender and receiver do with the channel output.
    [unframe_data] returns a payload whenever [is_corrupted] is false, so
    the default of [data_unframed] is never used. *)
Definition receive_and_ack (sender receiver : node)
  (received_frame_at_receiver : option (list ascii)) : res (node * node) :=
  match received_frame_at_receiver with
  | Some frame =>
      '(seq_num, data_unframed, is_corrupted) ← unframe_data receiver frame;
      if negb is_corrupted then
        let '(receiver', ack_num_from_receiver, _) :=
          process_received_frame receiver seq_num
            (default [] data_unframed) in
        match ack_num_from_receiver with
        | Some ack => Ok (on_ack sender ack, receiver')
        | None => Ok (sender, receiver')
        end
      else Ok (sender, receiver)
  | None => Ok (sender, receiver)
  end.

(** Line 368. *)
Definition advance (sender : node) : node :=
  {| polynomial := polynomial sender;
     send_buffer := send_buffer sender;
     next_frame_to_send := next_frame_to_send sender + 1;
     expected_frame_ack := expected_frame_ack sender;
     window_size := window_size sender;
     received_frames := received_frames sender;
     next_frame_to_deliver := next_frame_to_deliver sender |}.

(** Lines 385-387: the completion check closing a step. *)
Definition check_completion (g : gui) (sender receiver : node) : gui :=
  let g' := {| nodes := Some (sender, receiver);
               simulation_data := simulation_data g;
               is_running := is_running g |} in
  if bool_decide (expected_frame_ack sender
                  = Z.of_nat (length (send_buffer sender)))
     && bool_decide (next_frame_to_deliver receiver
                     = Z.of_nat (length (simulation_data g)))
  then end_simulation g' else g'.

(** One click on "Next Step".  Every statement that can raise comes
    before the first assignment of the step, so [Raise] means: the
    exception leaves the handler with the state as it was. *)
Definition next_simulation_step (g : gui) (introduce_error_flag : bool)
  (d : draws) : res gui :=
  if negb (is_running g) then Ok g
  else
    match nodes g with
    | None => Raise AttributeError
    | Some (sender, receiver) =>
        if can_send_new_frame sender then
          received ← channel_output sender introduce_error_flag d;
          '(sender', receiver') ← receive_and_ack sender receiver received;
          Ok (check_completion g (advance sender') receiver')
        else if bool_decide (expected_frame_ack sender
                             < Z.of_nat (length (send_buffer sender)))
        then Ok (check_completion g sender receiver)
        else Ok (end_simulation g)
    end.

(** The state the application is left in by one click. *)
Definition after_step (g : gui) (introduce_error_flag : bool) (d : draws)
  : gui :=
  match next_simulation_step g introduce_error_flag d with
  | Ok g' => g'
  | Raise _ => g
  end.

(** An acknowledgment reaching the sender outside a step. *)
Definition deliver_ack (g : gui) (ack : Z) : gui :=
  match nodes g with
  | Some (sender, receiver) =>
      {| nodes := Some (on_ack sender ack, receiver);
         simulation_data := simulation_data g;
         is_running := is_running g |}
  | None => g
  end.

(** States of the application: construction, then any sequence of
    starts, steps, resets and acknowledgment updates. *)
Inductive reachable : gui -> Prop :=
| reach_init : reachable initial_gui
| reach_start g data_input ok :
    reachable g -> reachable (start_simulation g data_input ok)
| reach_step g flag d :
    reachable g -> reachable (after_step g flag d)
| reach_ack g ack :
    reachable g -> reachable (deliver_ack g ack)
| reach_reset g :
    reachable g -> reachable (reset_simulation g).

(** ** Vocabulary of the statements *)

Definition is_bit (b : Z) : Prop := b = 0 \/ b = 1.

Definition is_bit_char (c : ascii) : Prop := c = "0"%char \/ c = "1"%char.

Definition bitstring (s : list ascii) : Prop := Forall is_bit_char s.

(** The integer a bit character stands for. *)
Definition bit_val (c : ascii) : Z :=
  if bool_decide (c = "1"%char) then 1 else 0.

(** Value of a bit string read as a binary numeral. *)
Definition bin_value (s : list ascii) : Z :=
  fold_left (fun a d => 2 * a + d) (map bit_val s) 0.

(** What the decoding loop computes on a bit string: one character per
    index of [range(0, len, 8)], the value of the (at most eight) bits
    starting there. *)
Definition decode_bits (data_bits : list ascii) : list N :=
  map (fun i => Z.to_N (bin_value (take 8 (drop i data_bits))))
      (range_by (length data_bits) 8).

(** The two-bit sequence field written by [frame_data]. *)
Definition seq_field (sequence_number : Z) : list ascii :=
  zfill 2 (py_slice_from (bin (sequence_number `mod` 4)) 2).

(** The payload field written by [frame_data]. *)
Definition payload_bits (data : list N) : list ascii :=
  concat (map (fun char => format_08b (ord char)) data).

(** The payload the framer would return if a trailing partial unit were
    dropped: the decoding of the complete 8-bit units only. *)
Definition complete_units_only (data_bits : list ascii) : list N :=
  decode_bits (take (8 * (length data_bits / 8)) data_bits).

(** A receiver holding frames 1, 2 and 4 while waiting for frame 0. *)
Definition receiver_with_gap : node :=
  {| polynomial := bits "1011";
     send_buffer := [];
     next_frame_to_send := 0;
     expected_frame_ack := 0;
     window_size := 3;
     received_frames := <[1 := [98%N]]> (<[2 := [99%N]]> (<[4 := [101%N]]> ∅));
     next_frame_to_deliver := 0 |}.

(** What holds of sender and receiver in every state of the application. *)
Definition nodes_ok (sender receiver : node) : Prop :=
  polynomial sender = bits "1011"
  /\ polynomial receiver = bits "1011"
  /\ 0 <= next_frame_to_send sender
  /\ next_frame_to_send sender - expected_frame_ack sender
     <= window_size sender.

(** A forced loss, a clean delivery, and a bit error on the third bit. *)
Definition draw_lost : draws :=
  {| loss_hit := true; error_hit := false; index_entropy := 0 |}.
Definition draw_clean : draws :=
  {| loss_hit := false; error_hit := false; index_entropy := 0 |}.
Definition draw_flip : draws :=
  {| loss_hit := false; error_hit := true; index_entropy := 2 |}.

(** The run "Hi": one clean step, one lost frame, one acknowledgment. *)
Definition run_hi : gui :=
  deliver_ack
    (after_step
       (after_step (start_simulation initial_gui [72%N; 105%N] true)
          false draw_clean)
       false draw_lost)
    1.

(** The frame with the character at index [k] flipped as the channel
    does it (lines 271-275): ['0'] becomes ['1'], anything else ['0']. *)
Definition flip_at (frame : list ascii) (k : nat) : list ascii :=
  match frame !! k with
  | Some original_char =>
      <[k := if bool_decide (original_char = "0"%char)
             then "1"%char else "0"%char]> frame
  | None => frame
  end.

(** The bit pattern of length [len] with a single one, at index [k]. *)
Definition unit_at (k len : nat) : list Z :=
  replicate k 0 ++ [1] ++ replicate (len - k - 1)%nat 0.

(** A non-zero three-bit window. *)
Definition live_window (a b c : Z) : Prop :=
  is_bit a /\ is_bit b /\ is_bit c /\ (a, b, c) <> (0, 0, 0).

(** A character [int(b)] accepts. *)
Definition is_digit_char (c : ascii) : Prop :=
  (48 <= N_of_ascii c <= 57)%N.

(** A sequence of calls of [process_received_frame] on one receiver:
    the receiver after the last call and everything delivered to the
    network layer, in order. *)
Definition receive_all (receiver : node) (calls : list (option Z * list N))
  : node * list (Z * list N) :=
  fold_left
    (fun acc call =>
       let '(receiver', _, out) :=
         process_received_frame acc.1 call.1 call.2 in
       (receiver', acc.2 ++ out))
    calls (receiver, []).

(** Every buffered frame is ahead of the delivery point. *)
Definition buffer_above (receiver : node) : Prop :=
  forall j, is_Some (received_frames receiver !! j) ->
            next_frame_to_deliver receiver < j.

(** A sequence of clicks on "Next Step", each with its error flag and
    its draws. *)
Definition run_steps (g : gui) (clicks : list (bool * draws)) : gui :=
  fold_left (fun g click => after_step g click.1 click.2) clicks g.

(** A running simulation in which nothing has been acknowledged or
    delivered although at least one frame has been sent. *)
Definition stalled (g : gui) : Prop :=
  is_running g = true
  /\ exists sender receiver,
       nodes g = Some (sender, receiver)
       /\ polynomial sender = bits "1011"
       /\ polynomial receiver = bits "1011"
       /\ expected_frame_ack sender = 0
       /\ window_size sender = 3
       /\ next_frame_to_deliver receiver = 0
       /\ 1 <= next_frame_to_send sender
       /\ (1 <= length (send_buffer sender))%nat.

(** A running simulation of at least five units whose pointers and
    buffered keys are within what a 2-bit sequence field can name. *)
Definition capped (g : gui) : Prop :=
  is_running g = true
  /\ exists sender receiver,
       nodes g = Some (sender, receiver)
       /\ polynomial sender = bits "1011"
       /\ polynomial receiver = bits "1011"
       /\ 0 <= next_frame_to_send sender
       /\ expected_frame_ack sender <= 4
       /\ next_frame_to_deliver receiver <= 4
       /\ (forall j, is_Some (received_frames receiver !! j) -> j <= 3)
       /\ (5 <= length (send_buffer sender))%nat.

(** The simulation of [data] after [k] units went through cleanly. *)
Definition clean_state (data : list N) (k : Z) : gui :=
  {| nodes :=
       Some ({| polynomial := bits "1011";
                send_buffer := map (fun c => [c]) data;
                next_frame_to_send := k;
                expected_frame_ack := k;
                window_size := 3;
                received_frames := ∅;
                next_frame_to_deliver := 0 |},
             {| polynomial := bits "1011";
                send_buffer := [];
                next_frame_to_send := 0;
                expected_frame_ack := 0;
                window_size := 3;
                received_frames := ∅;
                next_frame_to_deliver := k |});
     simulation_data := map (fun c => [c]) data;
     is_running := bool_decide (k < Z.of_nat (length data)) |}.

(** A click whose frame is neither lost nor corrupted. *)
Definition clean_click (click : bool * draws) : Prop :=
  loss_hit click.2 = false /\ click.1 && error_hit click.2 = false.

(** A simulation of [data] in which every acknowledged unit has been
    delivered, and which has stopped only with everything acknowledged. *)
Definition acked_delivered (data : list N) (g : gui) : Prop :=
  exists sender receiver,
    nodes g = Some (sender, receiver)
    /\ send_buffer sender = map (fun c => [c]) data
    /\ expected_frame_ack sender <= next_frame_to_deliver receiver
    /\ (is_running g = false ->
        Z.of_nat (length data) <= expected_frame_ack sender).

Ltac bitstring_tac :=
  repeat (apply List.Forall_cons; [first [now left | now right]|]);
  apply List.Forall_nil.

(** * Properties *)

(** ** Examples *)

Example generate_crc_ex1 : generate_crc (bits "001") (bits "1011") = Ok (bits "011").
Proof. reflexivity. Qed.

Example check_crc_ex1 : check_crc (bits "001011") (bits "1011") = Ok true.
Proof. reflexivity. Qed.

Example check_crc_ex2 : check_crc (bits "001111") (bits "1011") = Ok false.
Proof. reflexivity. Qed.

(** The frame for the character A with sequence number 0. *)
Example frame_data_ex :
  frame_data new_node [65%N] 0 = Ok (bits "0001000001111").
Proof. reflexivity. Qed.

(** Payload "Hi", no loss, no corruption: two steps finish the run with
    window base 2 and both units delivered. *)
Example run_hi_clean :
  after_step
    (after_step (start_simulation initial_gui [72%N; 105%N] true)
       false draw_clean)
    false draw_clean
  = {| nodes :=
         Some ({| polynomial := bits "1011";
                  send_buffer := [[72%N]; [105%N]];
                  next_frame_to_send := 2;
                  expected_frame_ack := 2;
                  window_size := 3;
                  received_frames := ∅;
                  next_frame_to_deliver := 0 |},
               {| polynomial := bits "1011";
                  send_buffer := [];
                  next_frame_to_send := 0;
                  expected_frame_ack := 0;
                  window_size := 3;
                  received_frames := ∅;
                  next_frame_to_deliver := 2 |});
       simulation_data := [[72%N]; [105%N]];
       is_running := false |}.
Proof. vm_compute. reflexivity. Qed.

(** ** The result monad and loops *)

Lemma bind_Ok {A B} (a : A) (k : A -> res B) : (Ok a ≫= k) = k a.
Proof. reflexivity. Qed.

Lemma bind_inv {A B} (m : res A) (k : A -> res B) (b : B) :
  (m ≫= k) = Ok b -> exists a, m = Ok a /\ k a = Ok b.
Proof. destruct m as [a|e]; [eauto | discriminate]. Qed.

Lemma py_get_Ok {A} (l : list A) (i : nat) (x : A) :
  l !! i = Some x -> py_get l i = Ok x.
Proof. unfold py_get. now intros ->. Qed.

Lemma py_get_inv {A} (l : list A) (i : nat) (x : A) :
  py_get l i = Ok x -> l !! i = Some x.
Proof. unfold py_get. destruct (l !! i); congruence. Qed.

(** A loop whose body keeps an invariant and cannot fail under it runs to
    completion. *)
Lemma for_range_inv {S} (P : S -> Prop) (idxs : list nat)
  (body : S -> nat -> res S) (s : S) :
  (forall s i, i ∈ idxs -> P s -> exists s', body s i = Ok s' /\ P s') ->
  P s -> exists s', for_range idxs body s = Ok s' /\ P s'.
Proof.
  revert s. induction idxs as [|i idxs IH]; intros s Hbody Hs; simpl.
  - eauto.
  - destruct (Hbody s i) as (s1 & -> & Hs1); [left | done |].
    rewrite bind_Ok. apply IH; [|done].
    intros s2 k Hk. apply Hbody. now right.
Qed.

(** Two loops over the same indices whose bodies respect a relation. *)
Lemma for_range_rel {S} (R : S -> S -> Prop) (idxs : list nat)
  (body1 body2 : S -> nat -> res S) (s1 s2 s1' : S) :
  (forall a b i a', i ∈ idxs -> R a b -> body1 a i = Ok a' ->
                    exists b', body2 b i = Ok b' /\ R a' b') ->
  R s1 s2 -> for_range idxs body1 s1 = Ok s1' ->
  exists s2', for_range idxs body2 s2 = Ok s2' /\ R s1' s2'.
Proof.
  revert s1 s2. induction idxs as [|i idxs IH]; intros s1 s2 Hbody HR; simpl.
  - intros [= <-]. eauto.
  - intros (a' & Ha & Hrest)%bind_inv.
    destruct (Hbody s1 s2 i a') as (b' & -> & HR'); [left | done | done |].
    rewrite bind_Ok. eapply IH; [|done|done].
    intros a b k a1 Hk. apply Hbody. now right.
Qed.

(** ** Division over GF(2) *)

Lemma is_bit_lxor (a b : Z) : is_bit a -> is_bit b -> is_bit (Z.lxor a b).
Proof. intros [-> | ->] [-> | ->]; cbv; auto. Qed.

Lemma xor_into_ok (poly : list Z) (i : nat) (T : list Z) (j : nat) :
  (i + j < length T)%nat -> (j < length poly)%nat ->
  exists T', xor_into poly i T j = Ok T' /\ length T' = length T
             /\ (Forall is_bit T -> Forall is_bit poly -> Forall is_bit T').
Proof.
  intros Hi Hj. unfold xor_into.
  destruct (lookup_lt_is_Some_2 T (i + j)%nat Hi) as [t Ht].
  destruct (lookup_lt_is_Some_2 poly j Hj) as [p Hp].
  rewrite (py_get_Ok _ _ _ Ht), bind_Ok, (py_get_Ok _ _ _ Hp), bind_Ok.
  eexists. split; [reflexivity|]. split; [apply length_insert|].
  intros HT HP. apply Forall_insert; [done|].
  apply is_bit_lxor.
  - exact (Forall_lookup_1 _ _ _ _ HT Ht).
  - exact (Forall_lookup_1 _ _ _ _ HP Hp).
Qed.

Lemma xor_into_shift (poly : list Z) (i : nat) (T D T' : list Z) (j : nat) :
  length D = length T -> xor_into poly i T j = Ok T' ->
  xor_into poly i (zip_with Z.lxor T D) j = Ok (zip_with Z.lxor T' D)
  /\ length D = length T'.
Proof.
  intros Hlen. unfold xor_into.
  intros (t & Ht%py_get_inv & (p & Hp%py_get_inv & [= <-])%bind_inv)%bind_inv.
  assert (Hlt : (i + j < length D)%nat)
    by (rewrite Hlen; eapply lookup_lt_Some; eauto).
  destruct (lookup_lt_is_Some_2 D _ Hlt) as [d Hd].
  assert (Hz : zip_with Z.lxor T D !! (i + j)%nat = Some (Z.lxor t d)).
  { rewrite lookup_zip_with, Ht, Hd. reflexivity. }
  rewrite (py_get_Ok _ _ _ Hz), bind_Ok, (py_get_Ok _ _ _ Hp), bind_Ok.
  split; [|now rewrite length_insert].
  f_equal.
  rewrite <- (list_insert_id D (i + j)%nat d Hd) at 2.
  rewrite <- insert_zip_with. f_equal.
  rewrite !Z.lxor_assoc. f_equal. apply Z.lxor_comm.
Qed.

Lemma divide_at_ok (poly T : list Z) (i : nat) :
  (i < length T)%nat -> (i + length poly <= length T)%nat ->
  exists T', divide_at poly T i = Ok T' /\ length T' = length T
             /\ (Forall is_bit T -> Forall is_bit poly -> Forall is_bit T').
Proof.
  intros Hi Hn. unfold divide_at.
  destruct (lookup_lt_is_Some_2 T i Hi) as [b Hb].
  rewrite (py_get_Ok _ _ _ Hb), bind_Ok.
  case_bool_decide; [|eauto].
  destruct (for_range_inv
              (fun T' => length T' = length T
                         /\ (Forall is_bit T -> Forall is_bit poly ->
                             Forall is_bit T'))
              (seq 0 (length poly)) (xor_into poly i) T)
    as (T' & HT' & Hlen & Hbits); [| by auto | by eauto].
  intros s j Hj%elem_of_seq [Hs Hsb].
  destruct (xor_into_ok poly i s j) as (s' & -> & Hl & Hb'); [lia | lia |].
  eexists. split; [reflexivity|]. split; [congruence|]. auto.
Qed.

Lemma divide_at_shift (poly T D T' : list Z) (i : nat) :
  length D = length T -> D !! i = Some 0 -> divide_at poly T i = Ok T' ->
  divide_at poly (zip_with Z.lxor T D) i = Ok (zip_with Z.lxor T' D)
  /\ length D = length T'.
Proof.
  intros Hlen Hd. unfold divide_at.
  intros (b & Hb%py_get_inv & Hrest)%bind_inv.
  assert (Hz : zip_with Z.lxor T D !! i = Some b).
  { rewrite lookup_zip_with, Hb, Hd. simpl. now rewrite Z.lxor_0_r. }
  rewrite (py_get_Ok _ _ _ Hz), bind_Ok.
  case_bool_decide; [|by injection Hrest as <-].
  destruct (for_range_rel
              (fun a b => b = zip_with Z.lxor a D /\ length D = length a)
              (seq 0 (length poly)) (xor_into poly i) (xor_into poly i)
              T (zip_with Z.lxor T D) T')
    as (s2 & Hs2 & -> & Hl); [| done | done | done].
  intros a ? j a' _ [-> Hla] Ha.
  destruct (xor_into_shift poly i a D a' j Hla Ha) as [-> ?]. eauto.
Qed.

(** The outer loop commutes with adding a pattern that is zero wherever
    the loop tests a bit. *)
Lemma division_shift (poly T D T' : list Z) (idxs : list nat) :
  length D = length T -> (forall i, i ∈ idxs -> D !! i = Some 0) ->
  for_range idxs (divide_at poly) T = Ok T' ->
  for_range idxs (divide_at poly) (zip_with Z.lxor T D)
  = Ok (zip_with Z.lxor T' D) /\ length D = length T'.
Proof.
  intros Hlen Hz HT.
  destruct (for_range_rel
              (fun a b => b = zip_with Z.lxor a D /\ length D = length a)
              idxs (divide_at poly) (divide_at poly)
              T (zip_with Z.lxor T D) T')
    as (s2 & Hs2 & -> & Hl); [| done | done | done].
  intros a ? i a' Hi [-> Hla] Ha.
  destruct (divide_at_shift poly a D a' i Hla (Hz i Hi) Ha) as [-> ?]. eauto.
Qed.

Lemma division_ok (poly T : list Z) (count : nat) :
  (count + length poly <= length T + 1)%nat -> (count <= length T)%nat ->
  exists T', for_range (seq 0 count) (divide_at poly) T = Ok T'
             /\ length T' = length T
             /\ (Forall is_bit T -> Forall is_bit poly -> Forall is_bit T').
Proof.
  intros Hc Hc'.
  apply (for_range_inv
           (fun T' => length T' = length T
                      /\ (Forall is_bit T -> Forall is_bit poly ->
                          Forall is_bit T'))); [|by auto].
  intros s i Hi%elem_of_seq [Hs Hsb].
  destruct (divide_at_ok poly s i) as (s' & -> & Hl & Hb'); [lia | lia |].
  eexists. split; [reflexivity|]. split; [congruence|]. auto.
Qed.

(** ** Bit strings *)

Lemma bit_val_is_bit (s : list ascii) : Forall is_bit (map bit_val s).
Proof.
  induction s as [|c s IH]; simpl; constructor; [|done].
  unfold bit_val, is_bit. case_bool_decide; auto.
Qed.

Lemma traverse_app {A B} (f : A -> res B) (l1 l2 : list A) (r1 r2 : list B) :
  traverse f l1 = Ok r1 -> traverse f l2 = Ok r2 ->
  traverse f (l1 ++ l2) = Ok (r1 ++ r2).
Proof.
  revert r1. induction l1 as [|x l1 IH]; simpl; intros r1.
  - now intros [= <-].
  - intros (y & Hy & (ys & Hys & [= <-])%bind_inv)%bind_inv H2.
    rewrite Hy, bind_Ok, (IH ys Hys H2). reflexivity.
Qed.

Lemma traverse_int_char (s : list ascii) :
  bitstring s -> traverse int_char s = Ok (map bit_val s).
Proof.
  induction 1 as [|c s [-> | ->] _ IH]; simpl; [done | |];
    rewrite IH; reflexivity.
Qed.

Lemma traverse_bit_char (s : list ascii) :
  bitstring s -> traverse bit_char s = Ok (map bit_val s).
Proof.
  induction 1 as [|c s [-> | ->] _ IH]; simpl; [done | |];
    rewrite IH; reflexivity.
Qed.

Lemma str_int_bits (ds : list Z) :
  Forall is_bit ds ->
  bitstring (concat (map str_int ds))
  /\ length (concat (map str_int ds)) = length ds
  /\ map bit_val (concat (map str_int ds)) = ds.
Proof.
  induction 1 as [|d ds [-> | ->] _ (IH1 & IH2 & IH3)]; simpl.
  - repeat split. constructor.
  - repeat split; [constructor; [left|]; done | now rewrite IH2
                  | now rewrite IH3].
  - repeat split; [constructor; [right|]; done | now rewrite IH2
                  | now rewrite IH3].
Qed.

Lemma lxor_self (M : list Z) :
  zip_with Z.lxor M M = replicate (length M) 0.
Proof.
  induction M as [|m M IH]; simpl; [done|].
  now rewrite Z.lxor_nilpotent, IH.
Qed.

Lemma lxor_zeros (A : list Z) :
  zip_with Z.lxor A (replicate (length A) 0) = A.
Proof.
  induction A as [|a A IH]; simpl; [done|].
  now rewrite Z.lxor_0_r, IH.
Qed.

Lemma lxor_zeros_l (A : list Z) :
  zip_with Z.lxor (replicate (length A) 0) A = A.
Proof.
  induction A as [|a A IH]; simpl; [done|].
  now rewrite IH.
Qed.

Lemma int_str_zeros (k : nat) :
  (0 < k)%nat ->
  int_str (concat (map str_int (replicate k 0))) = Ok 0.
Proof.
  intros Hk.
  assert (Hz : forall k, concat (map str_int (replicate k 0))
                         = replicate k "0"%char).
  { clear. induction k as [|k IH]; simpl; [done|]. now rewrite IH. }
  rewrite Hz.
  assert (Ht : forall k, traverse int_char (replicate k "0"%char)
                         = Ok (replicate k 0)).
  { clear. induction k as [|k IH]; simpl; [done|]. now rewrite IH. }
  assert (Hf : forall k, fold_left (fun a d => 10 * a + d) (replicate k 0) 0
                         = 0).
  { clear. induction k as [|k IH]; simpl; [done|]. exact IH. }
  destruct k as [|k]; [lia|].
  unfold int_str. change (replicate (S k) "0"%char) with
    ("0"%char :: replicate k "0"%char) at 1.
  cbv beta iota. rewrite Ht, bind_Ok, Hf. reflexivity.
Qed.

(** ** CRC generation and check on bit strings *)

Lemma generate_crc_bits (data poly : list ascii) :
  bitstring data -> bitstring poly ->
  exists T',
    for_range (seq 0 (length data)) (divide_at (map bit_val poly))
      (map bit_val data ++ replicate (length poly - 1)%nat 0) = Ok T'
    /\ length T' = (length data + (length poly - 1))%nat
    /\ Forall is_bit T'
    /\ generate_crc data poly
       = Ok (concat (map str_int (drop (length data) T'))).
Proof.
  intros Hd Hp.
  destruct (division_ok (map bit_val poly)
              (map bit_val data ++ replicate (length poly - 1)%nat 0)
              (length data)) as (T' & HT' & Hlen & Hbits).
  { rewrite length_app, !length_map, length_replicate. lia. }
  { rewrite length_app, !length_map, length_replicate. lia. }
  exists T'. split; [done|].
  rewrite length_app, length_map, length_replicate in Hlen.
  split; [done|]. split.
  { apply Hbits; [|apply bit_val_is_bit].
    apply Forall_app. split; [apply bit_val_is_bit|].
    apply Forall_replicate. now left. }
  unfold generate_crc.
  rewrite (traverse_int_char _ Hd), bind_Ok, (traverse_int_char _ Hp), bind_Ok.
  cbv zeta. rewrite !length_map, HT', bind_Ok. reflexivity.
Qed.

(** Appending the check value makes the division leave only zeros. *)
Lemma crc_round_trip (data poly : list ascii) :
  bitstring data -> bitstring poly -> (2 <= length poly)%nat ->
  exists crc,
    generate_crc data poly = Ok crc
    /\ bitstring crc
    /\ length crc = (length poly - 1)%nat
    /\ check_crc (data ++ crc) poly = Ok true.
Proof.
  intros Hd Hp Hn.
  destruct (generate_crc_bits data poly Hd Hp)
    as (T' & HT' & Hlen & Hbits & Hgen).
  set (M := drop (length data) T').
  assert (HMbits : Forall is_bit M) by (apply Forall_drop; done).
  assert (HMlen : length M = (length poly - 1)%nat)
    by (unfold M; rewrite length_drop; lia).
  destruct (str_int_bits M HMbits) as (Hcb & Hcl & Hcv).
  exists (concat (map str_int M)).
  split; [done|]. split; [done|]. split; [congruence|].
  set (D := replicate (length data) 0 ++ M).
  assert (HDlen : length D
                  = length (map bit_val data
                            ++ replicate (length poly - 1)%nat 0)).
  { unfold D. rewrite !length_app, length_map, !length_replicate. lia. }
  destruct (division_shift (map bit_val poly) _ D T' (seq 0 (length data))
              HDlen) as [Hrun _]; [|exact HT'|].
  { intros i Hi%elem_of_seq. unfold D.
    rewrite lookup_app_l by (rewrite length_replicate; lia).
    apply lookup_replicate_2. lia. }
  assert (Hin : zip_with Z.lxor
                  (map bit_val data ++ replicate (length poly - 1)%nat 0) D
                = map bit_val data ++ M).
  { unfold D. rewrite zip_with_app
      by (now rewrite length_map, length_replicate).
    rewrite <- (length_map bit_val data), lxor_zeros.
    rewrite <- HMlen, lxor_zeros_l. reflexivity. }
  assert (Hout : zip_with Z.lxor T' D
                 = take (length data) T' ++ replicate (length poly - 1)%nat 0).
  { rewrite <- (take_drop (length data) T') at 1. fold M. unfold D.
    rewrite zip_with_app by (rewrite length_take, length_replicate; lia).
    rewrite lxor_self, HMlen. f_equal.
    rewrite <- (length_replicate (length data) 0) at 2.
    replace (length data) with (length (take (length data) T')) at 2
      by (rewrite length_take; lia).
    rewrite length_replicate. apply lxor_zeros. }
  rewrite Hin in Hrun. rewrite Hout in Hrun.
  unfold check_crc.
  rewrite (traverse_app _ _ _ _ _ (traverse_int_char _ Hd)
             (traverse_int_char _ Hcb)), bind_Ok.
  rewrite (traverse_int_char _ Hp), bind_Ok. cbv zeta.
  rewrite Hcv, length_app, !length_map, HMlen.
  replace (Z.to_nat (Z.of_nat (length data + (length poly - 1))
                     - Z.of_nat (length poly) + 1)) with (length data) by lia.
  rewrite Hrun, bind_Ok.
  unfold py_slice_from, slice_bound.
  rewrite length_app, length_take, length_replicate.
  replace (Z.of_nat (length data + (length poly - 1))
           - Z.of_nat (length poly) + 1) with (Z.of_nat (length data)) by lia.
  destruct (Z.ltb_spec (Z.of_nat (length data)) 0) as [?|_]; [lia|].
  replace (Z.to_nat (Z.min (Z.of_nat (length data))
                       (Z.of_nat (length data `min` length T'
                                  + (length poly - 1)))))
    with (length (take (length data) T')) by (rewrite length_take; lia).
  rewrite drop_app_length, int_str_zeros by lia. reflexivity.
Qed.

Lemma map_fmap {A B} (f : A -> B) (l : list A) : map f l = f <$> l.
Proof. reflexivity. Qed.

Lemma fold_bits_bound (ds : list Z) (a : Z) :
  Forall is_bit ds -> 0 <= a ->
  a * 2 ^ Z.of_nat (length ds)
  <= fold_left (fun a d => 2 * a + d) ds a
  < (a + 1) * 2 ^ Z.of_nat (length ds).
Proof.
  intros H. revert a. induction H as [|d ds Hd _ IH]; intros a Ha.
  - simpl. lia.
  - cbn [fold_left length]. rewrite Nat2Z.inj_succ, Z.pow_succ_r by lia.
    specialize (IH (2 * a + d)).
    assert (0 <= 2 * a + d) by (destruct Hd; lia).
    specialize (IH H).
    assert (0 < 2 ^ Z.of_nat (length ds)) by (apply Z.pow_pos_nonneg; lia).
    destruct Hd as [-> | ->]; nia.
Qed.

Lemma bin_value_bound (s : list ascii) :
  0 <= bin_value s < 2 ^ Z.of_nat (length s).
Proof.
  unfold bin_value.
  pose proof (fold_bits_bound (map bit_val s) 0 (bit_val_is_bit s)) as H.
  rewrite length_map in H. lia.
Qed.

Lemma int_base2_bits (s : list ascii) :
  bitstring s -> s <> [] -> int_base2 s = Ok (bin_value s).
Proof.
  intros Hs Hne. unfold int_base2. destruct s as [|c s]; [done|].
  rewrite (traverse_bit_char _ Hs). reflexivity.
Qed.

Lemma int_str_bits (s : list ascii) :
  bitstring s -> s <> [] -> exists v, int_str s = Ok v.
Proof.
  intros Hs Hne. unfold int_str. destruct s as [|c s]; [done|].
  rewrite (traverse_int_char _ Hs). eexists. reflexivity.
Qed.

(** [check_crc] returns a verdict on every bit string long enough to hold
    a remainder. *)
Lemma check_crc_bits_ok (f poly : list ascii) :
  bitstring f -> bitstring poly -> (2 <= length poly)%nat ->
  (length poly - 1 <= length f)%nat ->
  exists ok, check_crc f poly = Ok ok.
Proof.
  intros Hf Hp Hn Hlen. unfold check_crc.
  rewrite (traverse_int_char _ Hf), bind_Ok, (traverse_int_char _ Hp), bind_Ok.
  cbv zeta. rewrite !length_map.
  destruct (division_ok (map bit_val poly) (map bit_val f)
              (Z.to_nat (Z.of_nat (length f) - Z.of_nat (length poly) + 1)))
    as (T' & -> & HTlen & HTbits).
  { rewrite !length_map. lia. }
  { rewrite !length_map. lia. }
  rewrite bind_Ok. rewrite length_map in HTlen.
  specialize (HTbits (bit_val_is_bit f) (bit_val_is_bit poly)).
  set (R := py_slice_from T' _).
  assert (HR : Forall is_bit R /\ length R = (length poly - 1)%nat).
  { unfold R, py_slice_from, slice_bound. rewrite HTlen.
    destruct (Z.ltb_spec (Z.of_nat (length f) - Z.of_nat (length poly) + 1) 0);
      [lia|].
    split; [now apply Forall_drop|]. rewrite length_drop. lia. }
  destruct HR as [HRb HRl].
  destruct (str_int_bits R HRb) as (Hsb & Hsl & _).
  destruct (int_str_bits _ Hsb) as [v ->].
  { intros E. rewrite E in Hsl. simpl in Hsl. lia. }
  rewrite bind_Ok. eauto.
Qed.

(** ** Slices *)

Lemma py_slice_unit {A} (l : list A) (i : nat) :
  py_slice l (Z.of_nat i) (Z.of_nat i + 8) = take 8 (drop i l).
Proof.
  unfold py_slice, slice_bound.
  destruct (Z.ltb_spec (Z.of_nat i) 0); [lia|].
  destruct (Z.ltb_spec (Z.of_nat i + 8) 0); [lia|].
  destruct (Nat.le_gt_cases (length l) i) as [Hge | Hlt].
  - rewrite !drop_ge by lia. now rewrite !take_nil.
  - replace (Z.to_nat (Z.min (Z.of_nat i) (Z.of_nat (length l)))) with i by lia.
    destruct (Nat.le_gt_cases (i + 8) (length l)) as [H8 | H8].
    + f_equal. lia.
    + rewrite !take_ge; [done | rewrite length_drop; lia
                        | rewrite length_drop; lia].
Qed.

Lemma py_slice_head {A} (l : list A) :
  (2 <= length l)%nat -> py_slice l 0 2 = take 2 l.
Proof.
  intros H. unfold py_slice, slice_bound. simpl.
  replace (Z.to_nat (Z.min 2 (Z.of_nat (length l)) - Z.min 0 (Z.of_nat (length l))))
    with 2%nat by lia.
  replace (Z.to_nat (Z.min 0 (Z.of_nat (length l)))) with 0%nat by lia.
  reflexivity.
Qed.

Lemma py_slice_body {A} (l : list A) :
  (5 <= length l)%nat ->
  py_slice l 2 (- 4 + 1) = take (length l - 5) (drop 2 l).
Proof.
  intros H. unfold py_slice, slice_bound. simpl.
  replace (Z.to_nat (Z.min 2 (Z.of_nat (length l)))) with 2%nat by lia.
  f_equal. lia.
Qed.

(** ** Decoding the payload field *)

Lemma range_by_lt (n i : nat) : i ∈ range_by n 8 -> (i < n)%nat.
Proof.
  unfold range_by. rewrite map_fmap.
  intros (q & -> & Hq%elem_of_seq)%list_elem_of_fmap.
  pose proof (Nat.div_mod_eq (n + 8 - 1) 8).
  pose proof (Nat.mod_upper_bound (n + 8 - 1) 8). lia.
Qed.

Lemma decode_unit_bits (data_bits : list ascii) (data : list N) (i : nat) :
  bitstring data_bits -> (i < length data_bits)%nat ->
  decode_unit data_bits data i
  = Ok (data ++ [Z.to_N (bin_value (take 8 (drop i data_bits)))]).
Proof.
  intros Hb Hi. unfold decode_unit. rewrite py_slice_unit.
  set (byte := take 8 (drop i data_bits)).
  assert (Hbyte : bitstring byte) by (apply Forall_take, Forall_drop, Hb).
  assert (Hlen : (0 < length byte <= 8)%nat).
  { unfold byte. rewrite length_take, length_drop. lia. }
  assert (Hne : byte <> []) by (intros E; rewrite E in Hlen; simpl in Hlen; lia).
  destruct byte as [|c byte'] eqn:E; [done|].
  rewrite (int_base2_bits _ Hbyte Hne), bind_Ok.
  pose proof (bin_value_bound (c :: byte')) as Hv.
  assert (2 ^ Z.of_nat (length (c :: byte')) <= 2 ^ 8)
    by (apply Z.pow_le_mono_r; lia).
  unfold chr.
  destruct (Z.leb_spec 0 (bin_value (c :: byte'))); [|lia].
  destruct (Z.leb_spec (bin_value (c :: byte')) 1114111); [|lia].
  reflexivity.
Qed.

Lemma decode_loop (data_bits : list ascii) :
  bitstring data_bits ->
  for_range (range_by (length data_bits) 8) (decode_unit data_bits) []
  = Ok (decode_bits data_bits).
Proof.
  intros Hb. unfold decode_bits.
  assert (Hgen : forall idxs acc,
             (forall i, i ∈ idxs -> (i < length data_bits)%nat) ->
             for_range idxs (decode_unit data_bits) acc
             = Ok (acc ++ map (fun i => Z.to_N (bin_value
                                          (take 8 (drop i data_bits)))) idxs)).
  { induction idxs as [|i idxs IH]; intros acc Hin; simpl.
    - now rewrite app_nil_r.
    - rewrite decode_unit_bits by (auto; apply Hin; left).
      rewrite bind_Ok, IH by (intros k Hk; apply Hin; now right).
      now rewrite <- app_assoc. }
  apply (Hgen _ []). apply range_by_lt.
Qed.

(** [unframe_data] on a bit string of at least five characters, for a
    node with the default generator: it never raises, and what it
    returns is decided by [check_crc]. *)
Lemma unframe_data_bits (self : node) (f : list ascii) :
  polynomial self = bits "1011" -> bitstring f -> (5 <= length f)%nat ->
  exists ok,
    check_crc f (bits "1011") = Ok ok
    /\ unframe_data self f
       = Ok (if ok
             then (Some (bin_value (take 2 f)),
                   Some (decode_bits (take (length f - 5) (drop 2 f))),
                   false)
             else (None, None, true)).
Proof.
  intros Hpoly Hf Hlen.
  assert (Hp : bitstring (bits "1011")) by (repeat constructor; cbv; auto).
  destruct (check_crc_bits_ok f (bits "1011") Hf Hp) as [ok Hok];
    [simpl; lia | simpl; lia |].
  exists ok. split; [done|].
  unfold unframe_data. rewrite Hpoly.
  change (length (bits "1011")) with 4%nat.
  destruct (Z.ltb_spec (Z.of_nat (length f)) (Z.of_nat 4 - 1 + 2)); [lia|].
  rewrite Hok, bind_Ok. destruct ok; [|reflexivity].
  cbn [negb]. cbv iota.
  rewrite py_slice_head by lia.
  change (- Z.of_nat 4 + 1) with (- 4 + 1).
  rewrite py_slice_body by lia.
  rewrite int_base2_bits.
  - rewrite bind_Ok, decode_loop; [reflexivity|].
    apply Forall_take, Forall_drop, Hf.
  - apply Forall_take, Hf.
  - destruct f as [|? [|? ?]]; simpl in *; [lia | lia | done].
Qed.

(** ** Encoding: the fields of a frame *)

Lemma seq_field_spec (s : Z) :
  bitstring (seq_field s) /\ length (seq_field s) = 2%nat
  /\ bin_value (seq_field s) = s `mod` 4.
Proof.
  unfold seq_field.
  pose proof (Z.mod_pos_bound s 4 eq_refl) as Hm.
  assert (Hc : s `mod` 4 = 0 \/ s `mod` 4 = 1 \/ s `mod` 4 = 2
               \/ s `mod` 4 = 3) by lia.
  destruct Hc as [-> | [-> | [-> | ->]]];
    (split; [vm_compute; bitstring_tac | split; reflexivity]).
Qed.

Lemma bin_pos_bits (p : positive) (acc : list ascii) :
  bitstring acc -> bitstring (bin_pos p acc) /\ bin_pos p acc <> [].
Proof.
  revert acc. induction p as [p IH | p IH |]; intros acc Hacc; simpl.
  - apply IH. constructor; [now right | done].
  - apply IH. constructor; [now left | done].
  - split; [constructor; [now right | done] | done].
Qed.

Lemma zfill_bits (w : nat) (s : list ascii) :
  bitstring s -> zfill w s = replicate (w - length s)%nat "0"%char ++ s.
Proof.
  intros Hs. unfold zfill. destruct Hs as [|c s Hc Hs].
  - now rewrite app_nil_r.
  - case_bool_decide as H; [|done].
    destruct Hc as [-> | ->], H as [H | H]; discriminate H.
Qed.

Lemma format_08b_bits (c : N) : bitstring (format_08b (ord c)).
Proof.
  unfold format_08b, ord, sign_prefix.
  destruct (Z.ltb_spec (Z.of_N c) 0); [lia|]. simpl.
  assert (Hd : bitstring (bin_digits (Z.abs_N (Z.of_N c)))).
  { unfold bin_digits. destruct (Z.abs_N (Z.of_N c)).
    - constructor; [now left | constructor].
    - apply bin_pos_bits. constructor. }
  rewrite (zfill_bits _ _ Hd). apply Forall_app. split; [|done].
  apply Forall_replicate. now left.
Qed.

Lemma payload_bits_bits (data : list N) : bitstring (payload_bits data).
Proof.
  unfold payload_bits. induction data as [|c data IH]; simpl.
  - constructor.
  - apply Forall_app. split; [apply format_08b_bits | exact IH].
Qed.

(** On the 8-bit alphabet a character is written as exactly eight bits
    whose value is its code point. *)
Lemma format_08b_byte (c : N) :
  (c < 256)%N ->
  length (format_08b (ord c)) = 8%nat
  /\ bin_value (format_08b (ord c)) = Z.of_N c.
Proof.
  intros Hc.
  assert (Hall : forallb (fun k =>
                   Nat.eqb (length (format_08b (ord (N.of_nat k)))) 8
                   && (bin_value (format_08b (ord (N.of_nat k)))
                       =? Z.of_N (N.of_nat k)))
                   (seq 0 256) = true) by (vm_compute; reflexivity).
  rewrite forallb_forall in Hall.
  specialize (Hall (N.to_nat c)). rewrite N2Nat.id in Hall.
  destruct (andb_prop _ _ (Hall ltac:(apply in_seq; lia))) as [H1 H2].
  split; [now apply Nat.eqb_eq | now apply Z.eqb_eq].
Qed.

Lemma range_by_unit (n : nat) :
  range_by (8 + n) 8 = 0%nat :: map (fun i => (i + 8)%nat) (range_by n 8).
Proof.
  unfold range_by.
  replace ((8 + n + 8 - 1) / 8)%nat with (S ((n + 8 - 1) / 8)).
  2:{ replace (8 + n + 8 - 1)%nat with (1 * 8 + (n + 8 - 1))%nat by lia.
      rewrite Nat.div_add_l by lia. lia. }
  cbn [seq map]. f_equal. rewrite <- seq_shift, !map_map.
  apply map_ext. intros q. lia.
Qed.

Lemma decode_bits_unit (x rest : list ascii) :
  length x = 8%nat ->
  decode_bits (x ++ rest) = Z.to_N (bin_value x) :: decode_bits rest.
Proof.
  intros Hx. unfold decode_bits.
  rewrite length_app, Hx, range_by_unit. cbn [map]. f_equal.
  - rewrite drop_0, take_app_length'; done.
  - rewrite map_map. apply map_ext. intros i.
    replace (i + 8)%nat with (length x + i)%nat by lia.
    now rewrite drop_app_add.
Qed.

Lemma decode_payload (data : list N) :
  Forall (fun c => (c < 256)%N) data -> decode_bits (payload_bits data) = data.
Proof.
  unfold payload_bits. induction 1 as [|c data Hc _ IH]; simpl.
  - reflexivity.
  - destruct (format_08b_byte c Hc) as [Hl Hv].
    rewrite decode_bits_unit, Hv, IH, N2Z.id; done.
Qed.

Lemma bits_1011 : bitstring (bits "1011").
Proof. vm_compute. bitstring_tac. Qed.

(** A frame built by a node with the default generator: sequence field,
    payload field, and a three-bit check value that verifies. *)
Lemma frame_data_bits (self : node) (data : list N) (s : Z) :
  polynomial self = bits "1011" ->
  exists crc,
    frame_data self data s = Ok ((seq_field s ++ payload_bits data) ++ crc)
    /\ bitstring crc /\ length crc = 3%nat
    /\ check_crc ((seq_field s ++ payload_bits data) ++ crc) (bits "1011")
       = Ok true.
Proof.
  intros Hpoly.
  assert (Hpl : bitstring (seq_field s ++ payload_bits data)).
  { apply Forall_app. split; [apply seq_field_spec | apply payload_bits_bits]. }
  destruct (crc_round_trip _ (bits "1011") Hpl bits_1011)
    as (crc & Hgen & Hcb & Hcl & Hchk); [simpl; lia|].
  exists crc. repeat split; try done.
  unfold frame_data. fold (seq_field s). fold (payload_bits data).
  cbv zeta. rewrite Hpoly, Hgen. reflexivity.
Qed.

(** Decoding a frame built by [frame_data]: the sequence field comes back
    modulo 4, the payload field goes through the decoding loop. *)
Lemma unframe_frame_data (snd rcv : node) (data : list N) (s : Z) :
  polynomial snd = bits "1011" -> polynomial rcv = bits "1011" ->
  exists frame,
    frame_data snd data s = Ok frame
    /\ bitstring frame /\ (5 <= length frame)%nat
    /\ unframe_data rcv frame
       = Ok (Some (s `mod` 4), Some (decode_bits (payload_bits data)), false).
Proof.
  intros Hs Hr.
  destruct (frame_data_bits snd data s Hs) as (crc & Hf & Hcb & Hcl & Hchk).
  destruct (seq_field_spec s) as (Hqb & Hql & Hqv).
  set (frame := (seq_field s ++ payload_bits data) ++ crc) in *.
  assert (Hfb : bitstring frame).
  { unfold frame. repeat (apply Forall_app; split); try done.
    apply payload_bits_bits. }
  assert (Hfl : length frame = (2 + length (payload_bits data) + 3)%nat).
  { unfold frame. rewrite !length_app. lia. }
  exists frame. split; [done|]. split; [done|]. split; [lia|].
  destruct (unframe_data_bits rcv frame Hr Hfb) as (ok & Hok & ->); [lia|].
  rewrite Hchk in Hok. injection Hok as <-.
  do 3 f_equal.
  - f_equal. unfold frame. rewrite <- app_assoc.
    rewrite take_app_length'; done.
  - do 2 f_equal. unfold frame. rewrite <- app_assoc.
    rewrite drop_app_length' by done.
    apply take_app_length'. rewrite !length_app. lia.
Qed.

(** ** Claims about the coding unit and the framer *)

(** C1. Framer round-trip: for every sequence number [seq] with
    [0 <= seq < 4] and every payload whose characters have code points
    below 256, a node with the default generator frames the payload, and
    a node with the default generator decodes that frame to
    [(seq, payload, False)]. *)
Theorem framer_round_trip (snd rcv : node) (payload : list N) (seq : Z) :
  polynomial snd = bits "1011" -> polynomial rcv = bits "1011" ->
  0 <= seq < 4 ->
  Forall (fun c => (c < 256)%N) payload ->
  exists frame,
    frame_data snd payload seq = Ok frame
    /\ unframe_data rcv frame = Ok (Some seq, Some payload, false).
Proof.
  intros Hs Hr Hseq Hpay.
  destruct (unframe_frame_data snd rcv payload seq Hs Hr)
    as (frame & Hf & _ & _ & Hu).
  exists frame. split; [done|].
  rewrite Hu, decode_payload, Z.mod_small; done.
Qed.

Lemma framer_round_trip_witness :
  exists frame,
    frame_data new_node [72%N; 105%N] 2 = Ok frame
    /\ unframe_data new_node frame = Ok (Some 2, Some [72%N; 105%N], false).
Proof.
  apply (framer_round_trip new_node new_node [72%N; 105%N] 2).
  - reflexivity.
  - reflexivity.
  - lia.
  - repeat constructor.
Defined.

(** C2. CRC round-trip: for every bit string [data] (the non-empty ones
    in particular) and the generator 1011, [generate_crc] returns a check
    value, and [check_crc] of the data followed by that check value
    returns [True]: the division leaves the all-zero remainder. *)
Theorem crc_round_trip_1011 (data : list ascii) :
  bitstring data -> data <> [] ->
  exists crc,
    generate_crc data (bits "1011") = Ok crc
    /\ check_crc (data ++ crc) (bits "1011") = Ok true.
Proof.
  intros Hd _.
  destruct (crc_round_trip data (bits "1011") Hd bits_1011)
    as (crc & Hgen & _ & _ & Hchk); [simpl; lia|].
  eauto.
Qed.

Lemma crc_round_trip_1011_witness :
  exists crc,
    generate_crc (bits "1101") (bits "1011") = Ok crc
    /\ check_crc (bits "1101" ++ crc) (bits "1011") = Ok true.
Proof.
  apply (crc_round_trip_1011 (bits "1101")).
  - vm_compute. bitstring_tac.
  - discriminate.
Defined.

(** C8 as stated fails: on empty data and the default generator
    [generate_crc] raises nothing, it returns ["000"]. *)
Lemma generate_crc_empty_counterexample :
  generate_crc [] (bits "1011") = Ok (bits "000")
  /\ ~ (exists e, generate_crc [] (bits "1011") = Raise e).
Proof.
  split; [reflexivity|]. intros [e He]. discriminate He.
Qed.

(** C8, amended. On empty data [generate_crc] neither crashes nor
    rejects the input: for every generator bit string it returns
    [len(generator) - 1] zero characters. *)
Theorem generate_crc_empty (generator : list ascii) :
  bitstring generator ->
  generate_crc [] generator
  = Ok (replicate (length generator - 1)%nat "0"%char).
Proof.
  intros Hg. unfold generate_crc. cbn [traverse]. rewrite bind_Ok.
  rewrite (traverse_int_char _ Hg), bind_Ok. cbv zeta.
  rewrite length_map. cbn [length seq for_range app]. rewrite bind_Ok, drop_0.
  f_equal. induction (length generator - 1)%nat as [|k IH]; simpl; [done|].
  now rewrite IH.
Qed.

Lemma generate_crc_empty_witness :
  generate_crc [] (bits "1011") = Ok (replicate (4 - 1)%nat "0"%char).
Proof.
  apply (generate_crc_empty (bits "1011")). vm_compute. bitstring_tac.
Defined.

Lemma decode_bits_short (x : list ascii) :
  (0 < length x < 8)%nat -> decode_bits x = [Z.to_N (bin_value x)].
Proof.
  intros Hx. unfold decode_bits, range_by.
  replace ((length x + 8 - 1) / 8)%nat with 1%nat.
  2:{ apply Nat.div_unique with (r := (length x - 1)%nat); lia. }
  cbn [seq map]. rewrite Nat.mul_0_l, drop_0, take_ge by lia. reflexivity.
Qed.

Lemma decode_bits_partial (q : nat) (db : list ascii) :
  (8 * q < length db < 8 * q + 8)%nat ->
  decode_bits db
  = decode_bits (take (8 * q) db) ++ [Z.to_N (bin_value (drop (8 * q) db))].
Proof.
  revert db. induction q as [|q IH]; intros db Hlen.
  - rewrite Nat.mul_0_r, take_0, drop_0.
    rewrite decode_bits_short by lia. reflexivity.
  - rewrite <- (take_drop 8 db) at 1.
    rewrite decode_bits_unit by (rewrite length_take; lia).
    rewrite (IH (drop 8 db)) by (rewrite length_drop; lia).
    replace (8 * S q)%nat with (8 + 8 * q)%nat by lia.
    rewrite <- take_take_drop, drop_drop.
    rewrite decode_bits_unit by (rewrite length_take; lia).
    reflexivity.
Qed.

(** C9 as stated fails: the frame 001011 carries the one payload bit 1;
    it passes the length and CRC checks, and [unframe_data] returns the
    one-character payload [chr(1)], not the empty string that dropping
    the partial unit would give. *)
Lemma unframe_partial_unit_counterexample :
  check_crc (bits "001011") (bits "1011") = Ok true
  /\ ((length (bits "001011") - 5) `mod` 8 <> 0)%nat
  /\ unframe_data new_node (bits "001011") = Ok (Some 0, Some [1%N], false)
  /\ complete_units_only (bits "1") = []
  /\ unframe_data new_node (bits "001011")
     <> Ok (Some 0, Some (complete_units_only (bits "1")), false).
Proof.
  repeat split; try reflexivity; vm_compute; discriminate.
Qed.

(** C9, amended. For every bit-string frame that passes the length and
    CRC checks and whose payload-bit count is not a multiple of 8,
    [unframe_data] does not fail and drops nothing: it returns the
    characters of the complete 8-bit units followed by one more
    character, whose code point is the value of the trailing partial
    group of bits. *)
Theorem unframe_partial_unit (self : node) (frame : list ascii) :
  polynomial self = bits "1011" ->
  bitstring frame -> (5 <= length frame)%nat ->
  check_crc frame (bits "1011") = Ok true ->
  ((length frame - 5) `mod` 8 <> 0)%nat ->
  let data_bits := take (length frame - 5) (drop 2 frame) in
  let q := (length data_bits / 8)%nat in
  unframe_data self frame
  = Ok (Some (bin_value (take 2 frame)),
        Some (complete_units_only data_bits
              ++ [Z.to_N (bin_value (drop (8 * q) data_bits))]),
        false).
Proof.
  intros Hpoly Hb Hlen Hchk Hmod data_bits q.
  destruct (unframe_data_bits self frame Hpoly Hb Hlen) as (ok & Hok & ->).
  rewrite Hchk in Hok. injection Hok as <-.
  do 3 f_equal. fold data_bits.
  assert (Hdl : length data_bits = (length frame - 5)%nat).
  { unfold data_bits. rewrite length_take, length_drop. lia. }
  unfold complete_units_only. fold q. f_equal.
  apply decode_bits_partial.
  pose proof (Nat.div_mod_eq (length data_bits) 8) as Hdm.
  pose proof (Nat.mod_upper_bound (length data_bits) 8) as Hub.
  fold q in Hdm. rewrite Hdl in Hdm, Hub |- *. lia.
Qed.

Lemma unframe_partial_unit_witness :
  unframe_data new_node (bits "001011")
  = Ok (Some (bin_value (bits "00")),
        Some (complete_units_only (bits "1")
              ++ [Z.to_N (bin_value (bits "1"))]),
        false).
Proof.
  apply (unframe_partial_unit new_node (bits "001011")).
  - reflexivity.
  - vm_compute. bitstring_tac.
  - simpl. lia.
  - reflexivity.
  - vm_compute. discriminate.
Defined.

(** C10. The sequence number wraps at the 2-bit field: for every payload
    [p] and every integer [s] (every natural number in particular),
    [frame_data(p, s)] equals [frame_data(p, s mod 4)]; with the default
    generator the frame is built and [unframe_data] returns from it the
    sequence number [s mod 4], which differs from [s] once [s >= 4]. *)
Theorem frame_data_wraps (snd rcv : node) (p : list N) (s : Z) :
  polynomial snd = bits "1011" -> polynomial rcv = bits "1011" ->
  frame_data snd p s = frame_data snd p (s `mod` 4)
  /\ (exists frame data,
         frame_data snd p s = Ok frame
         /\ unframe_data rcv frame = Ok (Some (s `mod` 4), Some data, false))
  /\ (4 <= s -> s `mod` 4 <> s).
Proof.
  intros Hs Hr. split; [|split].
  - unfold frame_data. now rewrite Z.mod_mod.
  - destruct (unframe_frame_data snd rcv p s Hs Hr)
      as (frame & Hf & _ & _ & Hu).
    eauto.
  - intros H4. pose proof (Z.mod_pos_bound s 4 eq_refl). lia.
Qed.

Lemma frame_data_wraps_witness :
  frame_data new_node [65%N] 6 = frame_data new_node [65%N] (6 `mod` 4)
  /\ (exists frame data,
         frame_data new_node [65%N] 6 = Ok frame
         /\ unframe_data new_node frame
            = Ok (Some (6 `mod` 4), Some data, false))
  /\ (4 <= 6 -> 6 `mod` 4 <> 6).
Proof.
  apply (frame_data_wraps new_node new_node [65%N] 6); reflexivity.
Defined.

(** ** The receiver *)

(** The drain loop with fuel [size frames] or more: it stops because the
    next key is absent, having removed and delivered exactly the [k]
    keys [next, next + 1, ..., next + k - 1], in that order. *)
Lemma drain_spec (fuel : nat) (frames : gmap Z (list N)) (next : Z) :
  (size frames <= fuel)%nat ->
  exists (k : nat) frames' out,
    drain fuel frames next = (frames', next + Z.of_nat k, out)
    /\ frames' !! (next + Z.of_nat k) = None
    /\ (forall j, frames' !! j
                  = if bool_decide (next <= j < next + Z.of_nat k)
                    then None else frames !! j)
    /\ length out = k
    /\ (forall i : nat, (i < k)%nat ->
          exists d, frames !! (next + Z.of_nat i) = Some d
                    /\ out !! i = Some (next + Z.of_nat i, d)).
Proof.
  revert frames next. induction fuel as [|fuel IH]; intros frames next Hsz.
  - assert (frames = ∅) as -> by (apply map_size_empty_inv; lia).
    exists 0%nat, ∅, []. simpl. rewrite Z.add_0_r.
    split; [done|]. split; [apply lookup_empty|]. split.
    + intros j. case_bool_decide; [lia | done].
    + split; [done|]. intros i Hi. lia.
  - simpl. destruct (frames !! next) as [d|] eqn:Hnext.
    + destruct (IH (delete next frames) (next + 1))
        as (k & frames' & out & Hdrain & Hexit & Hmap & Hlen & Hout).
      { pose proof (map_size_delete_Some next frames (mk_is_Some _ _ Hnext)).
        lia. }
      rewrite Hdrain.
      exists (S k), frames', ((next, d) :: out).
      replace (next + Z.of_nat (S k)) with (next + 1 + Z.of_nat k) by lia.
      split; [done|]. split; [done|]. split; [|split].
      * intros j. rewrite Hmap.
        repeat case_bool_decide; try lia; try done.
        -- assert (j = next) as -> by lia. apply lookup_delete_eq.
        -- apply lookup_delete_ne. lia.
      * simpl. now rewrite Hlen.
      * intros [|i] Hi.
        -- exists d. rewrite Z.add_0_r. done.
        -- destruct (Hout i ltac:(lia)) as (d' & Hd' & Ho).
           exists d'.
           replace (next + Z.of_nat (S i)) with (next + 1 + Z.of_nat i) by lia.
           split; [|done].
           rewrite lookup_delete_ne in Hd' by lia. done.
    + exists 0%nat, frames, []. rewrite Z.add_0_r.
      split; [done|]. split; [done|]. split.
      * intros j. case_bool_decide; [lia | done].
      * split; [done|]. intros i Hi. lia.
Qed.

(** The fuel given by [process_received_frame] is enough: the loop has
    met its exit test when it returns. *)
Lemma drain_exit (frames : gmap Z (list N)) (next : Z) :
  let '(frames', next', _) := drain (size frames) frames next in
  frames' !! next' = None.
Proof.
  destruct (drain_spec (size frames) frames next (le_n _))
    as (k & frames' & out & -> & Hexit & _). exact Hexit.
Qed.

(** C4. In-order receive: called with the sequence number [s] equal to
    [next_frame_to_deliver], [process_received_frame] returns the
    acknowledgment [s] itself; it has delivered the received payload and
    then, in ascending order, the [k] buffered payloads of the keys
    [s + 1, ..., s + k], each removed from the receive buffer;
    [next_frame_to_deliver] ends at [s + 1 + k], a key that is not
    buffered; all other keys and fields are untouched. *)
Theorem process_in_order (self : node) (s : Z) (data : list N) :
  s = next_frame_to_deliver self ->
  exists (k : nat) frames' out,
    process_received_frame self (Some s) data
    = ({| polynomial := polynomial self;
          send_buffer := send_buffer self;
          next_frame_to_send := next_frame_to_send self;
          expected_frame_ack := expected_frame_ack self;
          window_size := window_size self;
          received_frames := frames';
          next_frame_to_deliver := s + 1 + Z.of_nat k |},
       Some s,
       (s, data) :: out)
    /\ frames' !! (s + 1 + Z.of_nat k) = None
    /\ (forall j, frames' !! j
                  = if bool_decide (s + 1 <= j < s + 1 + Z.of_nat k)
                    then None else received_frames self !! j)
    /\ length out = k
    /\ (forall i : nat, (i < k)%nat ->
          exists d, received_frames self !! (s + 1 + Z.of_nat i) = Some d
                    /\ out !! i = Some (s + 1 + Z.of_nat i, d)).
Proof.
  intros ->.
  destruct (drain_spec (size (received_frames self)) (received_frames self)
              (next_frame_to_deliver self + 1) (le_n _))
    as (k & frames' & out & Hdrain & Hrest).
  exists k, frames', out. split; [|exact Hrest].
  unfold process_received_frame.
  rewrite bool_decide_eq_true_2 by reflexivity.
  rewrite Hdrain. reflexivity.
Qed.

Lemma process_in_order_witness :
  exists (k : nat) frames' out,
    process_received_frame receiver_with_gap (Some 0) [97%N]
    = ({| polynomial := polynomial receiver_with_gap;
          send_buffer := send_buffer receiver_with_gap;
          next_frame_to_send := next_frame_to_send receiver_with_gap;
          expected_frame_ack := expected_frame_ack receiver_with_gap;
          window_size := window_size receiver_with_gap;
          received_frames := frames';
          next_frame_to_deliver := 0 + 1 + Z.of_nat k |},
       Some 0,
       (0, [97%N]) :: out)
    /\ frames' !! (0 + 1 + Z.of_nat k) = None
    /\ (forall j, frames' !! j
                  = if bool_decide (0 + 1 <= j < 0 + 1 + Z.of_nat k)
                    then None else received_frames receiver_with_gap !! j)
    /\ length out = k
    /\ (forall i : nat, (i < k)%nat ->
          exists d, received_frames receiver_with_gap !! (0 + 1 + Z.of_nat i)
                    = Some d
                    /\ out !! i = Some (0 + 1 + Z.of_nat i, d)).
Proof.
  apply (process_in_order receiver_with_gap 0 [97%N]). reflexivity.
Defined.

(** On [receiver_with_gap] the acknowledgment is 0 although delivery went
    on to frame 2. *)
Example process_in_order_drains :
  process_received_frame receiver_with_gap (Some 0) [97%N]
  = ({| polynomial := bits "1011";
        send_buffer := [];
        next_frame_to_send := 0;
        expected_frame_ack := 0;
        window_size := 3;
        received_frames := <[4 := [101%N]]> ∅;
        next_frame_to_deliver := 3 |},
     Some 0,
     [(0, [97%N]); (1, [98%N]); (2, [99%N])]).
Proof. vm_compute. reflexivity. Qed.

(** C6. Out-of-order receive: called with a sequence number [s] above
    [next_frame_to_deliver], [process_received_frame] stores the payload
    under key [s] (replacing what was there), leaves every other key and
    field, [next_frame_to_deliver] included, as it was, delivers nothing,
    and returns [next_frame_to_deliver - 1] if [next_frame_to_deliver > 0]
    and [None] otherwise. *)
Theorem process_out_of_order (self : node) (s : Z) (data : list N) :
  s > next_frame_to_deliver self ->
  process_received_frame self (Some s) data
  = ({| polynomial := polynomial self;
        send_buffer := send_buffer self;
        next_frame_to_send := next_frame_to_send self;
        expected_frame_ack := expected_frame_ack self;
        window_size := window_size self;
        received_frames := <[s := data]> (received_frames self);
        next_frame_to_deliver := next_frame_to_deliver self |},
     (if bool_decide (next_frame_to_deliver self > 0)
      then Some (next_frame_to_deliver self - 1) else None),
     [])
  /\ <[s := data]> (received_frames self) !! s = Some data
  /\ (forall j, j <> s ->
        <[s := data]> (received_frames self) !! j = received_frames self !! j).
Proof.
  intros Hs. split; [|split].
  - unfold process_received_frame.
    rewrite bool_decide_eq_false_2 by lia.
    rewrite bool_decide_eq_true_2 by lia. reflexivity.
  - apply lookup_insert_eq.
  - intros j Hj. apply lookup_insert_ne. congruence.
Qed.

Lemma process_out_of_order_witness :
  process_received_frame receiver_with_gap (Some 2) [67%N]
  = ({| polynomial := polynomial receiver_with_gap;
        send_buffer := send_buffer receiver_with_gap;
        next_frame_to_send := next_frame_to_send receiver_with_gap;
        expected_frame_ack := expected_frame_ack receiver_with_gap;
        window_size := window_size receiver_with_gap;
        received_frames := <[2 := [67%N]]> (received_frames receiver_with_gap);
        next_frame_to_deliver := next_frame_to_deliver receiver_with_gap |},
     (if bool_decide (next_frame_to_deliver receiver_with_gap > 0)
      then Some (next_frame_to_deliver receiver_with_gap - 1) else None),
     [])
  /\ <[2 := [67%N]]> (received_frames receiver_with_gap) !! 2 = Some [67%N]
  /\ (forall j, j <> 2 ->
        <[2 := [67%N]]> (received_frames receiver_with_gap) !! j
        = received_frames receiver_with_gap !! j).
Proof.
  apply (process_out_of_order receiver_with_gap 2 [67%N]).
  simpl. lia.
Defined.

(** ** The step driver *)

Lemma process_received_frame_polynomial (self : node) (s : option Z)
  (data : list N) :
  polynomial (process_received_frame self s data).1.1 = polynomial self.
Proof.
  unfold process_received_frame. destruct s as [s|]; [|done].
  repeat case_bool_decide; try done.
  destruct (drain _ _ _) as [[? ?] ?]. done.
Qed.

Lemma on_ack_fields (sender : node) (ack : Z) :
  polynomial (on_ack sender ack) = polynomial sender
  /\ send_buffer (on_ack sender ack) = send_buffer sender
  /\ next_frame_to_send (on_ack sender ack) = next_frame_to_send sender
  /\ window_size (on_ack sender ack) = window_size sender
  /\ expected_frame_ack sender <= expected_frame_ack (on_ack sender ack).
Proof.
  unfold on_ack. case_bool_decide; simpl; repeat split; lia.
Qed.

(** Handling the channel output changes the sender by at most one
    acknowledgment update. *)
Lemma receive_and_ack_inv (sender receiver : node)
  (received : option (list ascii)) (sender' receiver' : node) :
  receive_and_ack sender receiver received = Ok (sender', receiver') ->
  (sender' = sender \/ exists ack, sender' = on_ack sender ack)
  /\ polynomial receiver' = polynomial receiver.
Proof.
  unfold receive_and_ack. destruct received as [frame|].
  - intros ([[seq_num data] corrupted] & Hu & H)%bind_inv.
    destruct corrupted; simpl in H.
    + injection H as <- <-. auto.
    + pose proof (process_received_frame_polynomial receiver seq_num
                    (default [] data)) as Hp.
      destruct (process_received_frame _ _ _) as [[rc' ack] out].
      simpl in Hp. destruct ack as [ack|]; injection H as <- <-; eauto.
  - intros [= <- <-]. auto.
Qed.

Lemma check_completion_nodes (g : gui) (sender receiver : node) :
  nodes (check_completion g sender receiver) = Some (sender, receiver).
Proof. unfold check_completion. case_match; reflexivity. Qed.

(** The two ways a step can end: sender and receiver as they were, or a
    send attempt. *)
Lemma step_nodes (g g' : gui) (flag : bool) (d : draws) :
  next_simulation_step g flag d = Ok g' ->
  nodes g' = nodes g
  \/ exists sender receiver received sender1 receiver1,
       nodes g = Some (sender, receiver)
       /\ is_running g = true
       /\ can_send_new_frame sender = true
       /\ channel_output sender flag d = Ok received
       /\ receive_and_ack sender receiver received = Ok (sender1, receiver1)
       /\ nodes g' = Some (advance sender1, receiver1).
Proof.
  unfold next_simulation_step.
  destruct (is_running g) eqn:Hrun; simpl; [|intros [= <-]; auto].
  destruct (nodes g) as [[sender receiver]|] eqn:Hn; [|discriminate].
  destruct (can_send_new_frame sender) eqn:Hcan.
  - intros (received & Hch & ([sender1 receiver1] & Hra & [= <-])%bind_inv)
             %bind_inv.
    right. exists sender, receiver, received, sender1, receiver1.
    repeat split; try done. apply check_completion_nodes.
  - case_bool_decide; intros [= <-]; left.
    + now rewrite check_completion_nodes.
    + simpl. done.
Qed.

Lemma can_send_new_frame_true (sender : node) :
  can_send_new_frame sender = true ->
  next_frame_to_send sender < Z.of_nat (length (send_buffer sender))
  /\ next_frame_to_send sender
     < expected_frame_ack sender + window_size sender.
Proof.
  unfold can_send_new_frame.
  intros [H1%bool_decide_eq_true H2%bool_decide_eq_true]%andb_prop. done.
Qed.

Lemma reachable_nodes_ok (g : gui) :
  reachable g ->
  forall sender receiver,
    nodes g = Some (sender, receiver) -> nodes_ok sender receiver.
Proof.
  induction 1 as [| g data_input ok _ IH | g flag d _ IH | g ack _ IH | g _ IH];
    intros sender receiver Hn.
  - discriminate.
  - unfold start_simulation in Hn.
    destruct (is_running g); [auto|].
    case_bool_decide; [auto|]. destruct ok; simpl in Hn; [|auto].
    injection Hn as <- <-. unfold nodes_ok.
    cbn [polynomial next_frame_to_send expected_frame_ack window_size new_node].
    repeat split; lia.
  - unfold after_step in Hn.
    destruct (next_simulation_step g flag d) as [g'|e] eqn:Hstep; [|auto].
    destruct (step_nodes _ _ _ _ Hstep)
      as [Heq | (sd & rc & r & sd1 & rc1 & Hg & _ & Hcan & _ & Hra & Hg')].
    + rewrite Heq in Hn. auto.
    + rewrite Hg' in Hn. injection Hn as <- <-.
      destruct (IH sd rc Hg) as (Hp1 & Hp2 & Hnfs & Hwin).
      destruct (receive_and_ack_inv _ _ _ _ _ Hra) as [Hsd Hrc].
      destruct (can_send_new_frame_true _ Hcan) as [_ Hw].
      unfold nodes_ok, advance.
      cbn [polynomial next_frame_to_send expected_frame_ack window_size].
      destruct Hsd as [-> | [ack ->]].
      * repeat split; try congruence; lia.
      * destruct (on_ack_fields sd ack) as (-> & _ & -> & -> & Hle).
        repeat split; try congruence; lia.
  - unfold deliver_ack in Hn.
    destruct (nodes g) as [[sd rc]|] eqn:Hg; [|congruence].
    cbn [nodes] in Hn. injection Hn as <- <-.
    destruct (IH sd rc eq_refl) as (Hp1 & Hp2 & Hnfs & Hwin).
    destruct (on_ack_fields sd ack) as (Hp & _ & Hn' & Hw & Hle).
    unfold nodes_ok. rewrite Hp, Hn', Hw. repeat split; try done; lia.
  - discriminate.
Qed.

Lemma run_hi_reachable : reachable run_hi.
Proof. unfold run_hi. repeat constructor. Qed.

(** C3. Flow control: in every state reached from the construction of
    the application by starts, simulation steps (whatever the channel
    does), acknowledgment updates and resets, the sender satisfies
    [next_frame_to_send - expected_frame_ack <= window_size]. *)
Theorem flow_control_invariant (g : gui) (sender receiver : node) :
  reachable g ->
  nodes g = Some (sender, receiver) ->
  next_frame_to_send sender - expected_frame_ack sender
  <= window_size sender.
Proof.
  intros Hr Hn. exact (proj2 (proj2 (proj2 (reachable_nodes_ok g Hr _ _ Hn)))).
Qed.

Lemma flow_control_invariant_witness :
  exists sender receiver,
    nodes run_hi = Some (sender, receiver)
    /\ next_frame_to_send sender - expected_frame_ack sender
       <= window_size sender.
Proof.
  destruct (nodes run_hi) as [[sender receiver]|] eqn:E;
    [|vm_compute in E; discriminate E].
  exists sender, receiver. split; [reflexivity|].
  apply (flow_control_invariant run_hi sender receiver).
  - exact run_hi_reachable.
  - exact E.
Defined.

(** C7. A corrupted frame leaves the receiver alone: called with [None]
    for the sequence number, [process_received_frame] returns [None],
    delivers nothing and returns the node unchanged; and a step whose
    frame is lost in the channel, or comes out of it failing the CRC
    check, leaves the receiver node exactly as it was. *)
Theorem corrupted_frame_atomicity :
  (forall (self : node) (data : list N),
      process_received_frame self None data = (self, None, []))
  /\ (forall (g : gui) (flag : bool) (d : draws) (sender receiver : node),
         nodes g = Some (sender, receiver) ->
         channel_output sender flag d = Ok None
         \/ (exists frame,
               channel_output sender flag d = Ok (Some frame)
               /\ check_crc frame (polynomial receiver) = Ok false) ->
         exists sender',
           nodes (after_step g flag d) = Some (sender', receiver)).
Proof.
  split; [reflexivity|].
  intros g flag d sender receiver Hn Hch.
  assert (Hra : forall received,
             channel_output sender flag d = Ok received ->
             receive_and_ack sender receiver received
             = Ok (sender, receiver)).
  { intros received Hr. destruct Hch as [Hl | (frame & Hf & Hcrc)].
    - rewrite Hl in Hr. injection Hr as <-. reflexivity.
    - rewrite Hf in Hr. injection Hr as <-.
      unfold receive_and_ack, unframe_data.
      case_match; [reflexivity|]. rewrite Hcrc. reflexivity. }
  unfold after_step, next_simulation_step.
  destruct (is_running g); simpl; [|eauto].
  rewrite Hn. destruct (can_send_new_frame sender).
  - destruct (channel_output sender flag d) as [received|e] eqn:Hr.
    + rewrite bind_Ok, (Hra received eq_refl), bind_Ok.
      rewrite check_completion_nodes. eauto.
    + destruct Hch as [Hl | (frame & Hf & _)]; discriminate.
  - case_bool_decide.
    + rewrite check_completion_nodes. eauto.
    + simpl. eauto.
Qed.

Lemma corrupted_frame_atomicity_witness :
  process_received_frame receiver_with_gap None [97%N]
  = (receiver_with_gap, None, [])
  /\ exists sender',
       nodes (after_step (start_simulation initial_gui [65%N] true)
                true draw_flip)
       = Some (sender', new_node).
Proof.
  split.
  - apply (proj1 corrupted_frame_atomicity).
  - apply (proj2 corrupted_frame_atomicity
             (start_simulation initial_gui [65%N] true) true draw_flip
             {| polynomial := bits "1011";
                send_buffer := [[65%N]];
                next_frame_to_send := 0;
                expected_frame_ack := 0;
                window_size := 3;
                received_frames := ∅;
                next_frame_to_deliver := 0 |}
             new_node).
    + reflexivity.
    + right. exists (bits "0011000001111"). split; reflexivity.
Defined.

Lemma py_index_ok {A} (l : list A) (i : Z) :
  0 <= i < Z.of_nat (length l) -> exists x, py_index l i = Ok x.
Proof.
  intros Hi. unfold py_index.
  destruct (Z.leb_spec 0 i); [|lia].
  destruct (lookup_lt_is_Some_2 l (Z.to_nat i) ltac:(lia)) as [x Hx].
  exists x. now apply py_get_Ok.
Qed.

(** The channel never raises on a non-empty bit string, and what it
    delivers is a bit string of the same length. *)
Lemma simulate_channel_gui_ok (frame : list ascii) (flag : bool) (d : draws) :
  bitstring frame -> (0 < length frame)%nat ->
  exists received,
    simulate_channel_gui frame flag d = Ok received
    /\ forall f, received = Some f ->
                 bitstring f /\ length f = length frame.
Proof.
  intros Hb Hlen. unfold simulate_channel_gui.
  destruct (loss_hit d); [eexists; split; [reflexivity | discriminate]|].
  destruct (flag && error_hit d).
  - unfold randint.
    destruct (Z.ltb_spec (Z.of_nat (length frame) - 1) 0); [lia|].
    rewrite bind_Ok.
    set (idx := 0 + Z.of_nat (index_entropy d)
                    `mod` (Z.of_nat (length frame) - 1 - 0 + 1)).
    assert (Hidx : 0 <= idx < Z.of_nat (length frame)).
    { unfold idx.
      pose proof (Z.mod_pos_bound (Z.of_nat (index_entropy d))
                    (Z.of_nat (length frame) - 1 - 0 + 1)). lia. }
    destruct (py_index_ok frame idx Hidx) as [c ->]. rewrite bind_Ok.
    eexists. split; [reflexivity|]. intros f [= <-].
    split; [|apply length_insert].
    apply Forall_insert; [done|]. case_bool_decide; [now right | now left].
  - eexists. split; [reflexivity|]. intros f [= <-]. done.
Qed.

Lemma channel_output_ok (sender : node) (flag : bool) (d : draws) :
  polynomial sender = bits "1011" ->
  0 <= next_frame_to_send sender
    < Z.of_nat (length (send_buffer sender)) ->
  exists received,
    channel_output sender flag d = Ok received
    /\ forall f, received = Some f -> bitstring f /\ (5 <= length f)%nat.
Proof.
  intros Hp Hi. unfold channel_output.
  destruct (py_index_ok _ _ Hi) as [data_char ->]. rewrite bind_Ok.
  destruct (unframe_frame_data sender sender data_char
              (next_frame_to_send sender) Hp Hp)
    as (frame & -> & Hfb & Hfl & _).
  rewrite bind_Ok.
  destruct (simulate_channel_gui_ok frame flag d Hfb ltac:(lia))
    as (received & -> & Hrec).
  exists received. split; [reflexivity|].
  intros f Hf. destruct (Hrec f Hf) as [? ?]. split; [done | lia].
Qed.

Lemma receive_and_ack_ok (sender receiver : node)
  (received : option (list ascii)) :
  polynomial receiver = bits "1011" ->
  (forall f, received = Some f -> bitstring f /\ (5 <= length f)%nat) ->
  exists sender1 receiver1,
    receive_and_ack sender receiver received = Ok (sender1, receiver1).
Proof.
  intros Hp Hrec. unfold receive_and_ack.
  destruct received as [frame|]; [|eauto].
  destruct (Hrec frame eq_refl) as [Hb Hl].
  destruct (unframe_data_bits receiver frame Hp Hb Hl) as (ok & _ & ->).
  rewrite bind_Ok. destruct ok; [|eauto]. cbn [negb].
  destruct (process_received_frame _ _ _) as [[rc' [ack|]] out]; eauto.
Qed.

(** A send attempt always completes and moves [next_frame_to_send] on by
    one. *)
Lemma send_attempt (g : gui) (flag : bool) (d : draws)
  (sender receiver : node) :
  nodes_ok sender receiver ->
  nodes g = Some (sender, receiver) ->
  is_running g = true ->
  can_send_new_frame sender = true ->
  exists sender' receiver',
    nodes (after_step g flag d) = Some (sender', receiver')
    /\ next_frame_to_send sender' = next_frame_to_send sender + 1
    /\ expected_frame_ack sender <= expected_frame_ack sender'.
Proof.
  intros (Hp1 & Hp2 & Hnfs & _) Hn Hrun Hcan.
  destruct (can_send_new_frame_true _ Hcan) as [Hlt _].
  destruct (channel_output_ok sender flag d Hp1 ltac:(lia))
    as (received & Hch & Hrec).
  destruct (receive_and_ack_ok sender receiver received Hp2 Hrec)
    as (sender1 & receiver1 & Hra).
  unfold after_step, next_simulation_step.
  rewrite Hrun, Hn, Hcan. cbn [negb].
  rewrite Hch, bind_Ok, Hra, bind_Ok.
  exists (advance sender1), receiver1.
  split; [apply check_completion_nodes|].
  destruct (receive_and_ack_inv _ _ _ _ _ Hra) as [[-> | [ack ->]] _].
  - simpl. lia.
  - destruct (on_ack_fields sender ack) as (_ & _ & Hn' & _ & Hle).
    unfold advance. cbn [next_frame_to_send expected_frame_ack].
    rewrite Hn'. lia.
Qed.

(** C5. Fire-and-forget send: in every reachable running state whose
    sender can send, one step adds exactly one to [next_frame_to_send],
    whatever the channel does to the frame (delivery, loss, bit error);
    in particular, when the first frame of a run is lost,
    [next_frame_to_send] is 1 and [expected_frame_ack] is still 0. *)
Theorem fire_and_forget :
  (forall (g : gui) (flag : bool) (d : draws) (sender receiver : node),
      reachable g ->
      nodes g = Some (sender, receiver) ->
      is_running g = true ->
      can_send_new_frame sender = true ->
      exists sender' receiver',
        nodes (after_step g flag d) = Some (sender', receiver')
        /\ next_frame_to_send sender' = next_frame_to_send sender + 1)
  /\ (forall (data_input : list N) (flag : bool) (d : draws),
         data_input <> [] ->
         loss_hit d = true ->
         exists sender' receiver',
           nodes (after_step (start_simulation initial_gui data_input true)
                    flag d)
           = Some (sender', receiver')
           /\ next_frame_to_send sender' = 1
           /\ expected_frame_ack sender' = 0).
Proof.
  split.
  - intros g flag d sender receiver Hr Hn Hrun Hcan.
    destruct (send_attempt g flag d sender receiver
                (reachable_nodes_ok g Hr _ _ Hn) Hn Hrun Hcan)
      as (sender' & receiver' & H1 & H2 & _).
    eauto.
  - intros data_input flag d Hne Hloss.
    destruct data_input as [|c data_input]; [done|].
    unfold after_step, next_simulation_step, start_simulation.
    cbn [is_running initial_gui negb nodes].
    rewrite bool_decide_eq_false_2 by done.
    cbn [is_running initial_gui negb nodes].
    unfold can_send_new_frame.
    cbn [next_frame_to_send expected_frame_ack window_size send_buffer
         new_node app map length].
    rewrite !bool_decide_eq_true_2 by lia. cbn [andb].
    unfold channel_output.
    cbn [next_frame_to_send send_buffer new_node app map].
    change (py_index ([c] :: map (fun c0 => [c0]) data_input) 0)
      with (Ok (A := list N) [c]).
    rewrite bind_Ok.
    match goal with
    | |- context [frame_data ?sd [c] 0] =>
        destruct (frame_data_bits sd [c] 0 eq_refl) as (crc & -> & _)
    end.
    rewrite bind_Ok. unfold simulate_channel_gui. rewrite Hloss.
    rewrite bind_Ok. cbn [receive_and_ack]. rewrite bind_Ok.
    eexists _, _. split; [apply check_completion_nodes|].
    split; reflexivity.
Qed.

Lemma fire_and_forget_witness :
  (exists sender' receiver',
      nodes (after_step (start_simulation initial_gui [65%N; 66%N] true)
               true draw_flip)
      = Some (sender', receiver')
      /\ next_frame_to_send sender' = 0 + 1)
  /\ (exists sender' receiver',
         nodes (after_step (start_simulation initial_gui [65%N] true)
                  false draw_lost)
         = Some (sender', receiver')
         /\ next_frame_to_send sender' = 1
         /\ expected_frame_ack sender' = 0).
Proof.
  split.
  - apply (proj1 fire_and_forget
             (start_simulation initial_gui [65%N; 66%N] true) true draw_flip
             {| polynomial := bits "1011";
                send_buffer := [[65%N]; [66%N]];
                next_frame_to_send := 0;
                expected_frame_ack := 0;
                window_size := 3;
                received_frames := ∅;
                next_frame_to_deliver := 0 |}
             new_node).
    + repeat constructor.
    + reflexivity.
    + reflexivity.
    + reflexivity.
  - apply (proj2 fire_and_forget [65%N] false draw_lost).
    + discriminate.
    + reflexivity.
Defined.

(** * Further properties *)

(** ** Linearity of the division *)

Lemma lxor_lists_comm (A B : list Z) :
  zip_with Z.lxor A B = zip_with Z.lxor B A.
Proof.
  revert B. induction A as [|a A IH]; intros [|b B]; simpl; try done.
  now rewrite Z.lxor_comm, IH.
Qed.

Lemma lxor_lists_cancel (A B : list Z) :
  length A = length B -> zip_with Z.lxor A (zip_with Z.lxor A B) = B.
Proof.
  revert B. induction A as [|a A IH]; intros [|b B]; simpl; try done.
  intros [= H]. rewrite IH by done.
  now rewrite <- Z.lxor_assoc, Z.lxor_nilpotent, Z.lxor_0_l.
Qed.

Lemma lxor_lists_bits (A B : list Z) :
  Forall is_bit A -> Forall is_bit B -> Forall is_bit (zip_with Z.lxor A B).
Proof.
  intros HA. revert B. induction HA as [|a A Ha _ IH]; intros B HB; simpl.
  - constructor.
  - destruct HB as [|b B Hb HB]; constructor; [now apply is_bit_lxor | auto].
Qed.

(** The inner loop commutes with adding any pattern of the same length. *)
Lemma inner_loop_shift (poly T D T' : list Z) (i : nat) (js : list nat) :
  length D = length T ->
  for_range js (xor_into poly i) T = Ok T' ->
  for_range js (xor_into poly i) (zip_with Z.lxor T D)
  = Ok (zip_with Z.lxor T' D) /\ length D = length T'.
Proof.
  intros Hlen HT.
  destruct (for_range_rel
              (fun a b => b = zip_with Z.lxor a D /\ length D = length a)
              js (xor_into poly i) (xor_into poly i)
              T (zip_with Z.lxor T D) T')
    as (s2 & Hs2 & -> & Hl); [| done | done | done].
  intros a ? j a' _ [-> Hla] Ha.
  destruct (xor_into_shift poly i a D a' j Hla Ha) as [-> ?]. eauto.
Qed.

(** One step of the division is additive on bit patterns. *)
Lemma divide_at_add (poly T D T1 D1 : list Z) (i : nat) :
  length D = length T -> Forall is_bit T -> Forall is_bit D ->
  divide_at poly T i = Ok T1 -> divide_at poly D i = Ok D1 ->
  divide_at poly (zip_with Z.lxor T D) i = Ok (zip_with Z.lxor T1 D1).
Proof.
  intros Hlen HTb HDb. unfold divide_at.
  intros (t & Ht%py_get_inv & HT1)%bind_inv (d & Hd%py_get_inv & HD1)%bind_inv.
  assert (Hz : zip_with Z.lxor T D !! i = Some (Z.lxor t d))
    by (rewrite lookup_zip_with, Ht, Hd; reflexivity).
  rewrite (py_get_Ok _ _ _ Hz), bind_Ok.
  pose proof (Forall_lookup_1 _ _ _ _ HTb Ht) as Htb.
  pose proof (Forall_lookup_1 _ _ _ _ HDb Hd) as Hdb.
  destruct Htb as [-> | ->], Hdb as [-> | ->]; simpl in *.
  - injection HT1 as <-. injection HD1 as <-. reflexivity.
  - injection HT1 as <-.
    rewrite (lxor_lists_comm T D), (lxor_lists_comm T D1).
    eapply inner_loop_shift; [|exact HD1]. done.
  - injection HD1 as <-.
    eapply inner_loop_shift; [|exact HT1]. done.
  - destruct (inner_loop_shift poly T (zip_with Z.lxor T D) T1 i _
                ltac:(rewrite length_zip_with; lia) HT1) as [HD1' Hl].
    rewrite lxor_lists_cancel in HD1' by done.
    rewrite HD1 in HD1'. injection HD1' as ->.
    rewrite length_zip_with in Hl.
    f_equal. symmetry.
    rewrite lxor_lists_cancel; [|rewrite length_zip_with; lia].
    reflexivity.
Qed.

(** The whole division loop is additive on bit patterns. *)
Lemma division_add (poly T D : list Z) (idxs : list nat) :
  length D = length T -> Forall is_bit T -> Forall is_bit D ->
  Forall is_bit poly ->
  (forall i, i ∈ idxs -> (i < length T)%nat /\ (i + length poly <= length T)%nat) ->
  exists T' D',
    for_range idxs (divide_at poly) T = Ok T'
    /\ for_range idxs (divide_at poly) D = Ok D'
    /\ for_range idxs (divide_at poly) (zip_with Z.lxor T D)
       = Ok (zip_with Z.lxor T' D')
    /\ length T' = length T /\ length D' = length T
    /\ Forall is_bit T' /\ Forall is_bit D'.
Proof.
  intros Hlen HTb HDb HPb. revert T D Hlen HTb HDb.
  induction idxs as [|i idxs IH]; intros T D Hlen HTb HDb Hin; simpl.
  - exists T, D. repeat split; done.
  - destruct (Hin i ltac:(left)) as [Hi Hn].
    destruct (divide_at_ok poly T i Hi Hn) as (T1 & HT1 & HlT & HbT).
    destruct (divide_at_ok poly D i ltac:(lia) ltac:(lia))
      as (D1 & HD1 & HlD & HbD).
    rewrite HT1, HD1, (divide_at_add poly T D T1 D1 i Hlen HTb HDb HT1 HD1).
    rewrite !bind_Ok.
    destruct (IH T1 D1 ltac:(lia) (HbT HTb HPb) (HbD HDb HPb))
      as (T' & D' & H1 & H2 & H3 & H4 & H5 & H6 & H7).
    { intros k Hk. rewrite HlT. apply Hin. now right. }
    exists T', D'. repeat split; try done; lia.
Qed.

(** ** The verdict of [check_crc] *)

Lemma fold_decimal_zero (ds : list Z) (a : Z) :
  Forall is_bit ds -> 0 <= a ->
  (fold_left (fun a d => 10 * a + d) ds a = 0
   <-> a = 0 /\ ds = replicate (length ds) 0).
Proof.
  intros H. revert a. induction H as [|d ds Hd _ IH]; intros a Ha; simpl.
  - split; [auto | now intros []].
  - rewrite IH by (destruct Hd; lia). split.
    + intros [H1 H2]. destruct Hd as [-> | ->]; [|lia].
      split; [lia | now f_equal].
    + intros [-> [= -> H2]]. split; [reflexivity | done].
Qed.

(** On a bit string long enough to hold a remainder, [check_crc] runs the
    division and answers whether the last [n - 1] positions are zero. *)
Lemma check_crc_verdict (f poly : list ascii) :
  bitstring f -> bitstring poly -> (2 <= length poly)%nat ->
  (length poly - 1 <= length f)%nat ->
  exists T',
    for_range (seq 0 (length f + 1 - length poly))
      (divide_at (map bit_val poly)) (map bit_val f) = Ok T'
    /\ length T' = length f
    /\ check_crc f poly
       = Ok (bool_decide (drop (length f + 1 - length poly) T'
                          = replicate (length poly - 1) 0)).
Proof.
  intros Hf Hp Hn Hlen.
  destruct (division_ok (map bit_val poly) (map bit_val f)
              (length f + 1 - length poly))
    as (T' & HT' & HTlen & HTbits).
  { rewrite !length_map. lia. }
  { rewrite !length_map. lia. }
  rewrite length_map in HTlen.
  specialize (HTbits (bit_val_is_bit f) (bit_val_is_bit poly)).
  exists T'. split; [done|]. split; [done|].
  unfold check_crc.
  rewrite (traverse_int_char _ Hf), bind_Ok, (traverse_int_char _ Hp), bind_Ok.
  cbv zeta. rewrite !length_map.
  replace (Z.to_nat (Z.of_nat (length f) - Z.of_nat (length poly) + 1))
    with (length f + 1 - length poly)%nat by lia.
  rewrite HT', bind_Ok.
  unfold py_slice_from, slice_bound. rewrite HTlen.
  destruct (Z.ltb_spec (Z.of_nat (length f) - Z.of_nat (length poly) + 1) 0);
    [lia|].
  replace (Z.to_nat (Z.min (Z.of_nat (length f) - Z.of_nat (length poly) + 1)
                       (Z.of_nat (length f))))
    with (length f + 1 - length poly)%nat by lia.
  set (R := drop (length f + 1 - length poly) T').
  assert (HRb : Forall is_bit R) by now apply Forall_drop.
  assert (HRl : length R = (length poly - 1)%nat)
    by (unfold R; rewrite length_drop; lia).
  destruct (str_int_bits R HRb) as (Hsb & Hsl & Hsv).
  unfold int_str.
  destruct (concat (map str_int R)) as [|c s] eqn:E;
    [simpl in Hsl; lia|].
  rewrite (traverse_int_char _ Hsb), bind_Ok, Hsv. rewrite bind_Ok.
  f_equal. rewrite <- HRl.
  pose proof (fold_decimal_zero R 0 HRb (Z.le_refl 0)) as Hz.
  case_bool_decide as Hdec.
  - apply Z.eqb_eq, Hz. auto.
  - apply Z.eqb_neq. intros H0. apply Hdec, Hz, H0.
Qed.

(** ** Dividing a single one by 1011 *)

Lemma for_range_app {S} (idxs1 idxs2 : list nat) (body : S -> nat -> res S)
  (s : S) :
  for_range (idxs1 ++ idxs2) body s
  = (s' ← for_range idxs1 body s; for_range idxs2 body s').
Proof.
  revert s. induction idxs1 as [|i idxs1 IH]; intros s; simpl; [done|].
  destruct (body s i) as [s1|e]; [|done]. rewrite !bind_Ok. apply IH.
Qed.

Lemma divide_at_zero (poly T : list Z) (i : nat) :
  T !! i = Some 0 -> divide_at poly T i = Ok T.
Proof. intros H. unfold divide_at. now rewrite (py_get_Ok _ _ _ H). Qed.

Lemma division_zeros (poly T : list Z) (idxs : list nat) :
  (forall i, i ∈ idxs -> T !! i = Some 0) ->
  for_range idxs (divide_at poly) T = Ok T.
Proof.
  induction idxs as [|i idxs IH]; intros H; simpl; [done|].
  rewrite divide_at_zero by (apply H; left). rewrite bind_Ok.
  apply IH. intros k Hk. apply H. now right.
Qed.

Lemma xor_into_prefix (poly pre T T1 : list Z) (i j : nat) :
  xor_into poly i T j = Ok T1 ->
  xor_into poly (length pre + i) (pre ++ T) j = Ok (pre ++ T1).
Proof.
  unfold xor_into.
  intros (t & Ht%py_get_inv & (p & Hp%py_get_inv & [= <-])%bind_inv)%bind_inv.
  assert (Hl : (pre ++ T) !! (length pre + i + j)%nat = Some t).
  { rewrite lookup_app_r by lia. rewrite <- Ht. f_equal. lia. }
  rewrite (py_get_Ok _ _ _ Hl), bind_Ok, (py_get_Ok _ _ _ Hp), bind_Ok.
  f_equal. rewrite <- Nat.add_assoc. apply insert_app_r.
Qed.

Lemma divide_at_prefix (poly pre T T1 : list Z) (i : nat) :
  divide_at poly T i = Ok T1 ->
  divide_at poly (pre ++ T) (length pre + i) = Ok (pre ++ T1).
Proof.
  unfold divide_at. intros (b & Hb%py_get_inv & H)%bind_inv.
  assert (Hl : (pre ++ T) !! (length pre + i)%nat = Some b).
  { rewrite lookup_app_r by lia. rewrite <- Hb. f_equal. lia. }
  rewrite (py_get_Ok _ _ _ Hl), bind_Ok.
  case_bool_decide; [|by injection H as <-].
  destruct (for_range_rel (fun a b => b = pre ++ a)
              (seq 0 (length poly)) (xor_into poly i)
              (xor_into poly (length pre + i)) T (pre ++ T) T1)
    as (s2 & Hs2 & ->); [| done | done | done].
  intros a ? j a' _ -> Ha. eexists. split; [|reflexivity].
  now apply xor_into_prefix.
Qed.

Lemma window_step (a b c : Z) (rest : list Z) :
  live_window a b c ->
  exists a' b' c',
    live_window a' b' c'
    /\ divide_at [1; 0; 1; 1] (a :: b :: c :: 0 :: rest) 0
       = Ok (0 :: a' :: b' :: c' :: rest).
Proof.
  intros (Ha & Hb & Hc & Hnz).
  destruct Ha as [-> | ->], Hb as [-> | ->], Hc as [-> | ->];
    try (exfalso; apply Hnz; reflexivity);
    (eexists _, _, _; split; [|vm_compute; reflexivity]);
    (split; [|split; [|split]]);
    first [now left | now right | discriminate].
Qed.

Lemma window_run (m i : nat) (a b c : Z) :
  live_window a b c ->
  exists a' b' c',
    live_window a' b' c'
    /\ for_range (seq i m) (divide_at [1; 0; 1; 1])
         (replicate i 0 ++ [a; b; c] ++ replicate m 0)
       = Ok (replicate (i + m) 0 ++ [a'; b'; c']).
Proof.
  revert i a b c. induction m as [|m IH]; intros i a b c Hw.
  - exists a, b, c. split; [done|]. simpl. now rewrite Nat.add_0_r.
  - destruct (window_step a b c (replicate m 0) Hw)
      as (a1 & b1 & c1 & Hw1 & Hstep).
    destruct (IH (S i) a1 b1 c1 Hw1) as (a' & b' & c' & Hw' & Hrun).
    exists a', b', c'. split; [done|].
    cbn [seq for_range].
    pose proof (divide_at_prefix _ (replicate i 0) _ _ 0 Hstep) as Hp.
    rewrite length_replicate, Nat.add_0_r in Hp.
    change ([a; b; c] ++ replicate (S m) 0)
      with (a :: b :: c :: 0 :: replicate m 0).
    rewrite Hp, bind_Ok.
    replace (replicate i 0 ++ 0 :: a1 :: b1 :: c1 :: replicate m 0)
      with (replicate (S i) 0 ++ [a1; b1; c1] ++ replicate m 0).
    2:{ rewrite replicate_S_end, <- app_assoc. reflexivity. }
    rewrite Hrun. replace (i + S m)%nat with (S i + m)%nat by lia.
    reflexivity.
Qed.

Lemma unit_at_length (k len : nat) :
  (k < len)%nat -> length (unit_at k len) = len.
Proof.
  intros H. unfold unit_at.
  rewrite !length_app, !length_replicate. simpl. lia.
Qed.

Lemma unit_at_lookup (k len i : nat) :
  (k < len)%nat -> (i < len)%nat ->
  unit_at k len !! i = Some (if bool_decide (i = k) then 1 else 0).
Proof.
  intros Hk Hi. unfold unit_at. case_bool_decide as E.
  - subst i. rewrite lookup_app_r by (rewrite length_replicate; lia).
    rewrite length_replicate, Nat.sub_diag. reflexivity.
  - destruct (Nat.lt_ge_cases i k).
    + rewrite lookup_app_l by (rewrite length_replicate; lia).
      now apply lookup_replicate_2.
    + rewrite lookup_app_r by (rewrite length_replicate; lia).
      rewrite length_replicate.
      destruct (i - k)%nat as [|r] eqn:Er; [lia|]. simpl.
      apply lookup_replicate_2. lia.
Qed.

Lemma unit_at_bits (k len : nat) : Forall is_bit (unit_at k len).
Proof.
  unfold unit_at. repeat (apply Forall_app; split).
  - apply Forall_replicate. now left.
  - constructor; [now right | constructor].
  - apply Forall_replicate. now left.
Qed.

(** Dividing a single one by 1011 never leaves a zero remainder. *)
Lemma unit_remainder (k len : nat) :
  (3 <= len)%nat -> (k < len)%nat ->
  exists E,
    for_range (seq 0 (len - 3)) (divide_at [1; 0; 1; 1]) (unit_at k len)
    = Ok E
    /\ drop (len - 3) E <> replicate 3 0.
Proof.
  intros Hlen Hk.
  destruct (Nat.lt_ge_cases k (len - 3)) as [Hin | Hout].
  - destruct (window_run (len - 3 - k) k 1 0 0) as (a & b & c & Hw & Hrun).
    { repeat split; first [now left | now right | discriminate]. }
    exists (replicate (len - 3) 0 ++ [a; b; c]). split.
    + replace (len - 3)%nat with (k + (len - 3 - k))%nat at 1 by lia.
      rewrite seq_app, for_range_app.
      rewrite division_zeros.
      2:{ intros i Hi%elem_of_seq. rewrite unit_at_lookup by lia.
          rewrite bool_decide_eq_false_2 by lia. reflexivity. }
      rewrite bind_Ok. simpl.
      replace (unit_at k len)
        with (replicate k 0 ++ [1; 0; 0] ++ replicate (len - 3 - k) 0).
      * rewrite Hrun. replace (k + (len - 3 - k))%nat with (len - 3)%nat by lia.
        reflexivity.
      * unfold unit_at. f_equal. simpl. do 1 f_equal.
        replace (len - k - 1)%nat with (S (S (len - 3 - k))) by lia.
        reflexivity.
    + rewrite drop_app_length' by now rewrite length_replicate.
      destruct Hw as (_ & _ & _ & Hnz). intros [= -> -> ->]. now apply Hnz.
  - exists (unit_at k len). split.
    + apply division_zeros. intros i Hi%elem_of_seq.
      rewrite unit_at_lookup by lia.
      rewrite bool_decide_eq_false_2 by lia. reflexivity.
    + intros Heq.
      assert (Hl : drop (len - 3) (unit_at k len) !! (k - (len - 3))%nat
                   = Some 1).
      { rewrite lookup_drop, unit_at_lookup by lia.
        rewrite bool_decide_eq_true_2 by lia. reflexivity. }
      rewrite Heq in Hl.
      apply lookup_replicate in Hl. destruct Hl as [Hl _]. discriminate Hl.
Qed.

(** ** Single-bit errors *)

Lemma flip_at_cons (c : ascii) (f : list ascii) (k : nat) :
  flip_at (c :: f) (S k) = c :: flip_at f k.
Proof. unfold flip_at. simpl. destruct (f !! k); reflexivity. Qed.

Lemma unit_at_cons (k len : nat) :
  unit_at (S k) (S len) = 0 :: unit_at k len.
Proof. reflexivity. Qed.

(** Flipping a bit of a bit string adds a single one to its pattern. *)
Lemma flip_at_bits (f : list ascii) (k : nat) :
  bitstring f -> (k < length f)%nat ->
  bitstring (flip_at f k)
  /\ length (flip_at f k) = length f
  /\ map bit_val (flip_at f k)
     = zip_with Z.lxor (map bit_val f) (unit_at k (length f)).
Proof.
  intros Hb. revert k. induction Hb as [|c f Hc Hb IH]; intros k Hk.
  - simpl in Hk. lia.
  - destruct k as [|k].
    + assert (Hz : zip_with Z.lxor (map bit_val f) (replicate (length f) 0)
                   = map bit_val f).
      { rewrite <- (length_map bit_val f). apply lxor_zeros. }
      unfold flip_at, unit_at.
      cbn [lookup list_lookup length replicate app Nat.sub].
      rewrite Nat.sub_0_r. cbn [insert list_insert map zip_with].
      rewrite Hz.
      destruct Hc as [-> | ->]; (split; [|split; reflexivity]);
        (constructor; [first [now left | now right] | done]).
    + rewrite flip_at_cons. cbn [length]. rewrite unit_at_cons.
      destruct (IH k ltac:(simpl in Hk; lia)) as (H1 & H2 & H3).
      split; [now constructor|]. split; [simpl; now rewrite H2|].
      cbn [map zip_with]. rewrite H3, Z.lxor_0_r. reflexivity.
Qed.

Lemma bit_val_1011 : map bit_val (bits "1011") = [1; 0; 1; 1].
Proof. reflexivity. Qed.

Lemma check_crc_flip (f : list ascii) (k : nat) :
  bitstring f -> (3 <= length f)%nat -> (k < length f)%nat ->
  check_crc f (bits "1011") = Ok true ->
  check_crc (flip_at f k) (bits "1011") = Ok false.
Proof.
  intros Hb Hlen Hk Hchk.
  destruct (flip_at_bits f k Hb Hk) as (Hfb & Hfl & Hfv).
  destruct (check_crc_verdict f (bits "1011") Hb bits_1011)
    as (T' & HT' & HTl & Hv); [simpl; lia | simpl; lia |].
  destruct (check_crc_verdict (flip_at f k) (bits "1011") Hfb bits_1011)
    as (F' & HF' & HFl & Hw); [simpl; lia | simpl; lia |].
  rewrite Hw. f_equal. apply bool_decide_eq_false_2.
  rewrite Hchk in Hv. injection Hv as Hv. symmetry in Hv.
  apply bool_decide_eq_true_1 in Hv.
  change (length (bits "1011")) with 4%nat in *.
  change (4 - 1)%nat with 3%nat in *.
  rewrite bit_val_1011 in *. rewrite Hfv in HF'. rewrite Hfl in HF' |- *.
  replace (length f + 1 - 4)%nat with (length f - 3)%nat in * by lia.
  destruct (unit_remainder k (length f) Hlen Hk) as (E & HE & HEnz).
  destruct (division_add [1; 0; 1; 1] (map bit_val f) (unit_at k (length f))
              (seq 0 (length f - 3)))
    as (T1 & E1 & H1 & H2 & H3 & HT1l & HE1l & _).
  { rewrite unit_at_length, length_map; done. }
  { apply bit_val_is_bit. }
  { apply unit_at_bits. }
  { repeat constructor; first [now left | now right]. }
  { intros i Hi%elem_of_seq. rewrite length_map. simpl. lia. }
  rewrite HT' in H1. injection H1 as <-.
  rewrite HE in H2. injection H2 as <-.
  rewrite HF' in H3. injection H3 as ->.
  rewrite zip_with_drop, Hv.
  rewrite length_map in HE1l.
  assert (Hz : zip_with Z.lxor (replicate 3 0) (drop (length f - 3) E)
               = drop (length f - 3) E).
  { rewrite <- (lxor_zeros_l (drop (length f - 3) E)) at 2.
    rewrite length_drop. do 2 f_equal. lia. }
  intros Hne. apply HEnz. rewrite <- Hz. exact Hne.
Qed.

(** ** The coding unit beyond the default generator *)



(** X2. Shape of the check value: on bit strings [generate_crc] never
    raises, and the check value is a bit string of exactly
    [len(generator) - 1] characters (none for a generator of one
    character or none). *)
Theorem generate_crc_shape (data generator : list ascii) :
  bitstring data -> bitstring generator ->
  exists crc,
    generate_crc data generator = Ok crc
    /\ bitstring crc
    /\ length crc = (length generator - 1)%nat.
Proof.
  intros Hd Hg.
  destruct (generate_crc_bits data generator Hd Hg)
    as (T' & _ & Hlen & Hbits & Hgen).
  eexists. split; [exact Hgen|].
  destruct (str_int_bits (drop (length data) T'))
    as (Hb & Hl & _); [now apply Forall_drop|].
  split; [done|]. rewrite Hl, length_drop. lia.
Qed.

Lemma generate_crc_shape_witness :
  exists crc,
    generate_crc (bits "0110") (bits "1011") = Ok crc
    /\ bitstring crc
    /\ length crc = (length (bits "1011") - 1)%nat.
Proof.
  apply (generate_crc_shape (bits "0110") (bits "1011"));
    vm_compute; bitstring_tac.
Defined.

(** X3. Single-bit errors are always detected with the generator 1011:
    if [check_crc] accepts a bit string of at least three characters,
    it rejects that string with any one of its bits flipped. *)
Theorem single_bit_error_detected (frame : list ascii) (k : nat) :
  bitstring frame -> (3 <= length frame)%nat -> (k < length frame)%nat ->
  check_crc frame (bits "1011") = Ok true ->
  check_crc (flip_at frame k) (bits "1011") = Ok false.
Proof. apply check_crc_flip. Qed.

Lemma single_bit_error_detected_witness :
  check_crc (flip_at (bits "0001000001111") 7) (bits "1011") = Ok false.
Proof.
  apply (single_bit_error_detected (bits "0001000001111") 7).
  - vm_compute. bitstring_tac.
  - simpl. lia.
  - simpl. lia.
  - reflexivity.
Defined.

(** X4. [check_crc] on the empty string never gives a verdict: for every
    non-empty generator bit string it raises [ValueError] (the remainder
    string is empty and [int('')] fails), and for the empty generator it
    raises [IndexError]. *)
Theorem check_crc_empty_raises (generator : list ascii) :
  bitstring generator ->
  check_crc [] generator
  = Raise (if bool_decide (generator = []) then IndexError else ValueError).
Proof.
  intros Hg. unfold check_crc. cbn [traverse]. rewrite bind_Ok.
  rewrite (traverse_int_char _ Hg), bind_Ok. cbv zeta.
  rewrite length_map. destruct generator as [|c generator]; [reflexivity|].
  rewrite bool_decide_eq_false_2 by done.
  cbn [length].
  replace (Z.to_nat (Z.of_nat 0 - Z.of_nat (S (length generator)) + 1))
    with 0%nat by lia.
  cbn [seq for_range]. rewrite bind_Ok.
  unfold py_slice_from. rewrite drop_nil. reflexivity.
Qed.

Lemma check_crc_empty_raises_witness :
  check_crc [] (bits "1011")
  = Raise (if bool_decide (bits "1011" = []) then IndexError else ValueError).
Proof.
  apply (check_crc_empty_raises (bits "1011")). vm_compute. bitstring_tac.
Defined.

(** X5. A generator of one character makes [check_crc] fail on every
    bit string: the division runs, the remainder string is empty, and
    [int('')] raises [ValueError]. *)
Theorem check_crc_short_generator (received : list ascii) (g : ascii) :
  bitstring received -> is_bit_char g ->
  check_crc received [g] = Raise ValueError.
Proof.
  intros Hr Hg.
  assert (Hgb : bitstring [g]) by (constructor; [done | constructor]).
  unfold check_crc.
  rewrite (traverse_int_char _ Hr), bind_Ok, (traverse_int_char _ Hgb), bind_Ok.
  cbv zeta. rewrite !length_map. cbn [length].
  replace (Z.to_nat (Z.of_nat (length received) - Z.of_nat 1 + 1))
    with (length received) by lia.
  destruct (division_ok (map bit_val [g]) (map bit_val received)
              (length received))
    as (T' & -> & HTl & _).
  { rewrite !length_map. simpl. lia. }
  { rewrite !length_map. lia. }
  rewrite bind_Ok. rewrite length_map in HTl.
  unfold py_slice_from, slice_bound. rewrite HTl.
  destruct (Z.ltb_spec (Z.of_nat (length received) - Z.of_nat 1 + 1) 0);
    [lia|].
  rewrite drop_ge by lia. reflexivity.
Qed.

Lemma check_crc_short_generator_witness :
  check_crc (bits "1101") ["1"%char] = Raise ValueError.
Proof.
  apply (check_crc_short_generator (bits "1101") "1"%char).
  - vm_compute. bitstring_tac.
  - now right.
Defined.

(** ** Characters that are not digits *)

Lemma int_char_cases (c : ascii) :
  (is_digit_char c /\ exists v, int_char c = Ok v)
  \/ (~ is_digit_char c /\ int_char c = Raise ValueError).
Proof.
  unfold int_char, is_digit_char.
  destruct (Z.leb_spec 48 (Z.of_N (N_of_ascii c)));
    destruct (Z.leb_spec (Z.of_N (N_of_ascii c)) 57); simpl;
    first [left; split; [lia | eexists; reflexivity]
          | right; split; [lia | reflexivity]].
Qed.

Lemma traverse_int_char_exn (s : list ascii) (e : exn) :
  traverse int_char s = Raise e -> e = ValueError.
Proof.
  induction s as [|c s IH]; simpl; [discriminate|].
  destruct (int_char_cases c) as [[_ [v ->]] | [_ ->]].
  - rewrite bind_Ok. destruct (traverse int_char s) as [ds|e'].
    + discriminate.
    + intros [= <-]. now apply IH.
  - now intros [= <-].
Qed.

Lemma traverse_int_char_raise (s : list ascii) :
  Exists (fun c => ~ is_digit_char c) s ->
  traverse int_char s = Raise ValueError.
Proof.
  induction s as [|c s IH]; intros HE.
  - inversion HE.
  - simpl. destruct (int_char_cases c) as [[Hd [v ->]] | [_ ->]]; [|done].
    rewrite bind_Ok. rewrite IH; [reflexivity|].
    inversion HE as [? ? Hc | ? ? Ht]; subst; [done | exact Ht].
Qed.

Lemma traverse_pair_raise (a b : list ascii) :
  Exists (fun c => ~ is_digit_char c) (a ++ b) ->
  traverse int_char a = Raise ValueError
  \/ exists ds, traverse int_char a = Ok ds
                /\ traverse int_char b = Raise ValueError.
Proof.
  intros [Ha | Hb]%Exists_app.
  - left. now apply traverse_int_char_raise.
  - destruct (traverse int_char a) as [ds|e] eqn:E.
    + right. exists ds. split; [done|]. now apply traverse_int_char_raise.
    + left. f_equal. now apply (traverse_int_char_exn a).
Qed.

(** X6. Characters other than decimal digits: if the data or the
    generator contains a character that is not one of ['0'..'9'], both
    [generate_crc] and [check_crc] raise [ValueError]. *)
Theorem crc_non_digit_raises (data generator : list ascii) :
  Exists (fun c => ~ is_digit_char c) (data ++ generator) ->
  generate_crc data generator = Raise ValueError
  /\ check_crc data generator = Raise ValueError.
Proof.
  intros H. unfold generate_crc, check_crc.
  destruct (traverse_pair_raise data generator H)
    as [-> | (ds & -> & ->)]; split; reflexivity.
Qed.

Lemma crc_non_digit_raises_witness :
  generate_crc (bits "10a1") (bits "1011") = Raise ValueError
  /\ check_crc (bits "10a1") (bits "1011") = Raise ValueError.
Proof.
  apply (crc_non_digit_raises (bits "10a1") (bits "1011")).
  apply Exists_cons_tl, Exists_cons_tl, Exists_cons_hd.
  unfold is_digit_char. simpl. lia.
Defined.

(** X7. [unframe_data] does not report such a frame as corrupted: on a
    frame that passes the length check and contains a character other
    than a decimal digit it raises [ValueError]. *)
Theorem unframe_data_non_digit_raises (self : node) (frame : list ascii) :
  bitstring (polynomial self) ->
  (length (polynomial self) + 1 <= length frame)%nat ->
  Exists (fun c => ~ is_digit_char c) frame ->
  unframe_data self frame = Raise ValueError.
Proof.
  intros Hp Hlen HE. unfold unframe_data.
  destruct (Z.ltb_spec (Z.of_nat (length frame))
              (Z.of_nat (length (polynomial self)) - 1 + 2)); [lia|].
  unfold check_crc. rewrite (traverse_int_char_raise _ HE). reflexivity.
Qed.

Lemma unframe_data_non_digit_raises_witness :
  unframe_data new_node (bits "00x00000") = Raise ValueError.
Proof.
  apply (unframe_data_non_digit_raises new_node (bits "00x00000")).
  - vm_compute. bitstring_tac.
  - simpl. lia.
  - apply Exists_cons_tl, Exists_cons_tl, Exists_cons_hd.
    unfold is_digit_char. simpl. lia.
Defined.

(** ** The framer on bit strings *)

Lemma decode_bits_bytes (data_bits : list ascii) :
  Forall (fun c => (c < 256)%N) (decode_bits data_bits).
Proof.
  unfold decode_bits.
  induction (range_by (length data_bits) 8) as [|i idxs IH]; simpl;
    constructor; [|exact IH].
  pose proof (bin_value_bound (take 8 (drop i data_bits))) as Hv.
  assert ((length (take 8 (drop i data_bits)) <= 8)%nat)
    by (rewrite length_take; lia).
  assert (2 ^ Z.of_nat (length (take 8 (drop i data_bits))) <= 2 ^ 8)
    by (apply Z.pow_le_mono_r; lia).
  lia.
Qed.

(** X8. [unframe_data] on bit strings (default generator): it never
    raises; it either reports corruption with no sequence number and no
    data, or returns a sequence number in [0..3] and a payload whose
    characters all have code points below 256, and it does the latter
    exactly when the frame has at least five characters and passes
    [check_crc]. *)
Theorem unframe_data_total (self : node) (frame : list ascii) :
  polynomial self = bits "1011" -> bitstring frame ->
  (unframe_data self frame = Ok (None, None, true)
   /\ ((length frame < 5)%nat \/ check_crc frame (bits "1011") = Ok false))
  \/ (exists seq data,
        unframe_data self frame = Ok (Some seq, Some data, false)
        /\ 0 <= seq < 4
        /\ Forall (fun c => (c < 256)%N) data
        /\ (5 <= length frame)%nat
        /\ check_crc frame (bits "1011") = Ok true).
Proof.
  intros Hp Hb.
  destruct (Nat.lt_ge_cases (length frame) 5) as [Hshort | Hlong].
  - left. split; [|now left]. unfold unframe_data. rewrite Hp.
    change (length (bits "1011")) with 4%nat.
    destruct (Z.ltb_spec (Z.of_nat (length frame)) (Z.of_nat 4 - 1 + 2));
      [reflexivity | lia].
  - destruct (unframe_data_bits self frame Hp Hb Hlong) as ([|] & Hok & Hu).
    + right. eexists _, _. split; [exact Hu|].
      split; [|split; [apply decode_bits_bytes | done]].
      pose proof (bin_value_bound (take 2 frame)) as Hv.
      rewrite length_take in Hv.
      replace (2 `min` length frame)%nat with 2%nat in Hv by lia.
      change (2 ^ Z.of_nat 2) with 4 in Hv. exact Hv.
    + left. split; [exact Hu | now right].
Qed.

Lemma unframe_data_total_witness :
  (unframe_data new_node (bits "0001000001101") = Ok (None, None, true)
   /\ ((length (bits "0001000001101") < 5)%nat
       \/ check_crc (bits "0001000001101") (bits "1011") = Ok false))
  \/ (exists seq data,
        unframe_data new_node (bits "0001000001101")
        = Ok (Some seq, Some data, false)
        /\ 0 <= seq < 4
        /\ Forall (fun c => (c < 256)%N) data
        /\ (5 <= length (bits "0001000001101"))%nat
        /\ check_crc (bits "0001000001101") (bits "1011") = Ok true).
Proof.
  apply (unframe_data_total new_node (bits "0001000001101")).
  - reflexivity.
  - vm_compute. bitstring_tac.
Defined.

Lemma payload_bits_length (data : list N) :
  Forall (fun c => (c < 256)%N) data ->
  length (payload_bits data) = (8 * length data)%nat.
Proof.
  unfold payload_bits. induction 1 as [|c data Hc _ IH]; simpl; [done|].
  rewrite length_app, IH. destruct (format_08b_byte c Hc) as [-> _]. lia.
Qed.

(** X9. Frame length: with the default generator, the frame of a
    payload of [n] characters of the 8-bit alphabet is a bit string of
    exactly [8 n + 5] characters, whatever the sequence number (13
    characters for the one-character frames the simulation sends). *)
Theorem frame_data_length (self : node) (data : list N) (s : Z) :
  polynomial self = bits "1011" ->
  Forall (fun c => (c < 256)%N) data ->
  exists frame,
    frame_data self data s = Ok frame
    /\ bitstring frame
    /\ length frame = (8 * length data + 5)%nat.
Proof.
  intros Hp Hdata.
  destruct (frame_data_bits self data s Hp) as (crc & Hf & Hcb & Hcl & _).
  destruct (seq_field_spec s) as (Hqb & Hql & _).
  eexists. split; [exact Hf|]. split.
  - repeat (apply Forall_app; split); try done. apply payload_bits_bits.
  - rewrite !length_app, Hql, Hcl, (payload_bits_length _ Hdata). lia.
Qed.

Lemma frame_data_length_witness :
  exists frame,
    frame_data new_node [72%N; 105%N] 5 = Ok frame
    /\ bitstring frame
    /\ length frame = (8 * length [72%N; 105%N] + 5)%nat.
Proof.
  apply (frame_data_length new_node [72%N; 105%N] 5).
  - reflexivity.
  - repeat constructor.
Defined.

(** ** The receiver over several calls *)

(** The three branches of [process_received_frame] on a sequence number. *)
Lemma process_cases (self : node) (s : Z) (data : list N) :
  (s = next_frame_to_deliver self
   /\ exists (k : nat) frames' out,
        process_received_frame self (Some s) data
        = ({| polynomial := polynomial self;
              send_buffer := send_buffer self;
              next_frame_to_send := next_frame_to_send self;
              expected_frame_ack := expected_frame_ack self;
              window_size := window_size self;
              received_frames := frames';
              next_frame_to_deliver := s + 1 + Z.of_nat k |},
           Some s, (s, data) :: out)
        /\ frames' !! (s + 1 + Z.of_nat k) = None
        /\ (forall j, frames' !! j
                      = if bool_decide (s + 1 <= j < s + 1 + Z.of_nat k)
                        then None else received_frames self !! j)
        /\ length out = k
        /\ (forall i : nat, (i < k)%nat ->
              exists d, received_frames self !! (s + 1 + Z.of_nat i) = Some d
                        /\ out !! i = Some (s + 1 + Z.of_nat i, d)))
  \/ (s > next_frame_to_deliver self
      /\ process_received_frame self (Some s) data
         = ({| polynomial := polynomial self;
               send_buffer := send_buffer self;
               next_frame_to_send := next_frame_to_send self;
               expected_frame_ack := expected_frame_ack self;
               window_size := window_size self;
               received_frames := <[s := data]> (received_frames self);
               next_frame_to_deliver := next_frame_to_deliver self |},
            (if bool_decide (next_frame_to_deliver self > 0)
             then Some (next_frame_to_deliver self - 1) else None),
            []))
  \/ (s < next_frame_to_deliver self
      /\ process_received_frame self (Some s) data = (self, Some s, [])).
Proof.
  destruct (Z.lt_trichotomy s (next_frame_to_deliver self)) as [Hlt | [-> | Hgt]].
  - right. right. split; [done|]. unfold process_received_frame.
    rewrite !bool_decide_eq_false_2 by lia. reflexivity.
  - left. split; [done|].
    destruct (drain_spec (size (received_frames self)) (received_frames self)
                (next_frame_to_deliver self + 1) (le_n _))
      as (k & frames' & out & Hdrain & Hrest).
    exists k, frames', out. split; [|exact Hrest].
    unfold process_received_frame.
    rewrite bool_decide_eq_true_2 by reflexivity.
    rewrite Hdrain. reflexivity.
  - right. left. split; [lia|]. unfold process_received_frame.
    rewrite bool_decide_eq_false_2 by lia.
    rewrite bool_decide_eq_true_2 by lia. reflexivity.
Qed.

Lemma consecutive_is_seqZ (l : list Z) (m : Z) :
  (forall i : nat, (i < length l)%nat -> l !! i = Some (m + Z.of_nat i)) ->
  l = seqZ m (Z.of_nat (length l)).
Proof.
  intros H. apply list_eq. intros i.
  destruct (Nat.lt_ge_cases i (length l)) as [Hi | Hi].
  - rewrite (H i Hi), lookup_seqZ_lt by lia. reflexivity.
  - rewrite lookup_ge_None_2 by lia. rewrite lookup_seqZ_ge by lia.
    reflexivity.
Qed.

Lemma fst_lookup (l : list (Z * list N)) (i : nat) (x : Z * list N) :
  l !! i = Some x -> map fst l !! i = Some x.1.
Proof. intros H. rewrite map_fmap, list_lookup_fmap, H. reflexivity. Qed.

(** One call: the delivery point never moves back, what is delivered is
    the run of sequence numbers it moved over, an acknowledgment names a
    number below the new delivery point, and buffered frames stay ahead
    of it. *)
Lemma process_step (self : node) (s : option Z) (data : list N) :
  forall self' ack out,
    process_received_frame self s data = (self', ack, out) ->
    next_frame_to_deliver self <= next_frame_to_deliver self'
    /\ map fst out
       = seqZ (next_frame_to_deliver self)
           (next_frame_to_deliver self' - next_frame_to_deliver self)
    /\ (forall a, ack = Some a -> a < next_frame_to_deliver self')
    /\ (buffer_above self -> buffer_above self').
Proof.
  intros self' ack out Hp. destruct s as [s|].
  - destruct (process_cases self s data)
      as [(Hs & k & frames' & out' & Heq & Hexit & Hmap & Hlen & Hout)
         | [(Hs & Heq) | (Hs & Heq)]];
      rewrite Heq in Hp; injection Hp as <- <- <-;
      cbn [next_frame_to_deliver received_frames].
    + subst s. split; [lia|]. split; [|split].
      * replace (next_frame_to_deliver self + 1 + Z.of_nat k
                 - next_frame_to_deliver self)
          with (Z.of_nat (length (map fst ((next_frame_to_deliver self, data)
                                           :: out'))))
          by (rewrite length_map; simpl; lia).
        apply consecutive_is_seqZ. intros [|i] Hi.
        -- simpl. f_equal. lia.
        -- rewrite length_map in Hi. simpl in Hi.
           destruct (Hout i ltac:(lia)) as (d & _ & Ho).
           change (map fst out' !! i
                   = Some (next_frame_to_deliver self + Z.of_nat (S i))).
           rewrite (fst_lookup _ _ _ Ho). simpl. f_equal. lia.
      * intros a [= <-]. lia.
      * intros Habove j Hj. unfold buffer_above in *.
        cbn [next_frame_to_deliver received_frames] in *.
        rewrite Hmap in Hj. case_bool_decide as Hin; [by destruct Hj|].
        specialize (Habove j Hj).
        assert (j <> next_frame_to_deliver self + 1 + Z.of_nat k).
        { intros ->. rewrite Hmap in Hexit.
          rewrite bool_decide_eq_false_2 in Hexit by lia.
          rewrite Hexit in Hj. by destruct Hj. }
        lia.
    + split; [lia|]. split; [|split].
      * rewrite Z.sub_diag. reflexivity.
      * intros a. case_bool_decide; [|discriminate]. intros [= <-]. lia.
      * intros Habove j Hj. unfold buffer_above in *.
        cbn [next_frame_to_deliver received_frames] in *.
        destruct (decide (j = s)) as [-> | Hne]; [lia|].
        rewrite lookup_insert_ne in Hj by done. auto.
    + split; [lia|]. split; [|split].
      * rewrite Z.sub_diag. reflexivity.
      * intros a [= <-]. lia.
      * auto.
  - simpl in Hp. injection Hp as <- <- <-.
    split; [lia|]. split; [|split]; [|discriminate|auto].
    rewrite Z.sub_diag. reflexivity.
Qed.

Lemma receive_all_acc (calls : list (option Z * list N)) (receiver : node)
  (pre : list (Z * list N)) :
  fold_left
    (fun acc call =>
       let '(receiver', _, out) :=
         process_received_frame acc.1 call.1 call.2 in
       (receiver', acc.2 ++ out))
    calls (receiver, pre)
  = ((receive_all receiver calls).1, pre ++ (receive_all receiver calls).2).
Proof.
  unfold receive_all. revert receiver pre.
  induction calls as [|call calls IH]; intros receiver pre; simpl.
  - now rewrite app_nil_r.
  - destruct (process_received_frame receiver call.1 call.2)
      as [[receiver' ack] out].
    rewrite (IH receiver' (pre ++ out)), (IH receiver' out).
    simpl. now rewrite app_assoc.
Qed.

Lemma receive_all_cons (receiver : node) (call : option Z * list N)
  (calls : list (option Z * list N)) :
  receive_all receiver (call :: calls)
  = (let '(receiver', _, out) :=
       process_received_frame receiver call.1 call.2 in
     ((receive_all receiver' calls).1,
      out ++ (receive_all receiver' calls).2)).
Proof.
  unfold receive_all at 1. simpl.
  destruct (process_received_frame receiver call.1 call.2)
    as [[receiver' ack] out].
  apply receive_all_acc.
Qed.

Lemma receive_all_spec (calls : list (option Z * list N)) (receiver : node) :
  next_frame_to_deliver receiver
  <= next_frame_to_deliver (receive_all receiver calls).1
  /\ map fst (receive_all receiver calls).2
     = seqZ (next_frame_to_deliver receiver)
         (next_frame_to_deliver (receive_all receiver calls).1
          - next_frame_to_deliver receiver)
  /\ (buffer_above receiver -> buffer_above (receive_all receiver calls).1).
Proof.
  revert receiver. induction calls as [|call calls IH]; intros receiver.
  - simpl. rewrite Z.sub_diag. repeat split; [lia | auto].
  - rewrite receive_all_cons.
    destruct (process_received_frame receiver call.1 call.2)
      as [[receiver' ack] out] eqn:Hp.
    destruct (process_step receiver call.1 call.2 _ _ _ Hp)
      as (Hle & Hout & _ & Hab).
    destruct (IH receiver') as (Hle' & Hout' & Hab').
    cbn [fst snd]. split; [lia|]. split; [|auto].
    rewrite map_app, Hout, Hout'.
    replace (next_frame_to_deliver (receive_all receiver' calls).1
             - next_frame_to_deliver receiver)
      with ((next_frame_to_deliver receiver'
             - next_frame_to_deliver receiver)
            + (next_frame_to_deliver (receive_all receiver' calls).1
               - next_frame_to_deliver receiver')) by lia.
    rewrite seqZ_app by lia. do 2 f_equal. lia.
Qed.

Lemma buffer_above_new_node : buffer_above new_node.
Proof. intros j [x H]. discriminate H. Qed.

(** X10. Buffered frames stay ahead of the delivery point: if every key
    of [received_frames] is above [next_frame_to_deliver] (as on a fresh
    node, whose buffer is empty), this still holds after any sequence of
    calls of [process_received_frame], whatever sequence numbers
    ([None] included) and payloads they carry. *)
Theorem receiver_buffer_above (receiver : node)
  (calls : list (option Z * list N)) :
  buffer_above receiver ->
  buffer_above (receive_all receiver calls).1.
Proof. apply receive_all_spec. Qed.

Lemma receiver_buffer_above_witness :
  buffer_above
    (receive_all new_node
       [(Some 2, [99%N]); (None, []); (Some 0, [97%N]); (Some 1, [98%N])]).1.
Proof.
  apply (receiver_buffer_above new_node
           [(Some 2, [99%N]); (None, []); (Some 0, [97%N]); (Some 1, [98%N])]).
  intros j [x H]. discriminate H.
Defined.

(** X11. In-order, gap-free, duplicate-free delivery: after any sequence
    of calls of [process_received_frame] on a fresh receiver, the
    sequence numbers handed to the network layer are exactly
    [0, 1, ..., next_frame_to_deliver - 1], in this order, each once. *)
Theorem delivery_in_order (calls : list (option Z * list N)) :
  map fst (receive_all new_node calls).2
  = seqZ 0 (next_frame_to_deliver (receive_all new_node calls).1).
Proof.
  destruct (receive_all_spec calls new_node) as (_ & H & _).
  rewrite H. cbn [next_frame_to_deliver new_node]. f_equal. lia.
Qed.

Example delivery_in_order_ex :
  receive_all new_node
    [(Some 2, [99%N]); (Some 1, [98%N]); (Some 1, [120%N]);
     (Some 0, [97%N]); (Some 0, [97%N])]
  = ({| polynomial := bits "1011";
        send_buffer := [];
        next_frame_to_send := 0;
        expected_frame_ack := 0;
        window_size := 3;
        received_frames := ∅;
        next_frame_to_deliver := 3 |},
     [(0, [97%N]); (1, [120%N]); (2, [99%N])]).
Proof. vm_compute. reflexivity. Qed.

(** X12. Acknowledgments and the delivery point: a call of
    [process_received_frame] never moves [next_frame_to_deliver] back,
    and an acknowledgment it returns always names a sequence number
    below [next_frame_to_deliver] as it is after the call. *)
Theorem ack_below_delivery_point (self : node) (s : option Z)
  (data : list N) :
  next_frame_to_deliver self
  <= next_frame_to_deliver (process_received_frame self s data).1.1
  /\ (forall a, (process_received_frame self s data).1.2 = Some a ->
                a < next_frame_to_deliver
                      (process_received_frame self s data).1.1).
Proof.
  destruct (process_received_frame self s data) as [[self' ack] out] eqn:Hp.
  destruct (process_step self s data _ _ _ Hp) as (H1 & _ & H2 & _).
  cbn [fst snd]. auto.
Qed.

(** X13. A frame received again changes nothing: after an in-order
    frame [s] has been processed, processing sequence number [s] once
    more (with any payload) returns the acknowledgment [s] again,
    delivers nothing and leaves the receiver as it is. *)
Theorem redelivery_is_idempotent (self : node) (s : Z) (data data' : list N) :
  s = next_frame_to_deliver self ->
  let self' := (process_received_frame self (Some s) data).1.1 in
  process_received_frame self' (Some s) data' = (self', Some s, []).
Proof.
  intros Hs self'.
  destruct (process_received_frame self (Some s) data)
    as [[self1 ack] out] eqn:Hp.
  destruct (process_cases self s data)
    as [(_ & k & frames' & out' & Heq & _) | [(Hgt & _) | (Hlt & _)]];
    [|lia|lia].
  rewrite Hp in Heq. injection Heq as -> _ _.
  subst self'. cbn [fst].
  destruct (process_cases
              {| polynomial := polynomial self;
                 send_buffer := send_buffer self;
                 next_frame_to_send := next_frame_to_send self;
                 expected_frame_ack := expected_frame_ack self;
                 window_size := window_size self;
                 received_frames := frames';
                 next_frame_to_deliver := s + 1 + Z.of_nat k |} s data')
    as [(He & _) | [(Hgt & _) | (_ & Heq)]];
    cbn [next_frame_to_deliver] in *; [lia | lia | exact Heq].
Qed.

Lemma redelivery_is_idempotent_witness :
  let self' :=
    (process_received_frame receiver_with_gap (Some 0) [97%N]).1.1 in
  process_received_frame self' (Some 0) [120%N] = (self', Some 0, []).
Proof.
  apply (redelivery_is_idempotent receiver_with_gap 0 [97%N] [120%N]).
  reflexivity.
Defined.

(** ** The channel *)

Lemma simulate_channel_gui_eq (frame : list ascii) (flag : bool) (d : draws) :
  frame <> [] ->
  simulate_channel_gui frame flag d
  = Ok (if loss_hit d then None
        else if flag && error_hit d
             then Some (flip_at frame (index_entropy d `mod` length frame))
             else Some frame).
Proof.
  intros Hne. unfold simulate_channel_gui.
  destruct (loss_hit d); [reflexivity|].
  destruct (flag && error_hit d); [|reflexivity].
  assert (Hlen : (0 < length frame)%nat) by (destruct frame; simpl; [done | lia]).
  unfold randint.
  destruct (Z.ltb_spec (Z.of_nat (length frame) - 1) 0); [lia|].
  rewrite bind_Ok.
  replace (0 + Z.of_nat (index_entropy d)
               `mod` (Z.of_nat (length frame) - 1 - 0 + 1))
    with (Z.of_nat (index_entropy d `mod` length frame)).
  2:{ rewrite Nat2Z.inj_mod, Z.add_0_l. f_equal. lia. }
  pose proof (Nat.mod_upper_bound (index_entropy d) (length frame)
                ltac:(lia)) as Hk.
  destruct (lookup_lt_is_Some_2 frame _ Hk) as [c Hc].
  unfold py_index.
  destruct (Z.leb_spec 0 (Z.of_nat (index_entropy d `mod` length frame)));
    [|lia].
  rewrite Nat2Z.id, (py_get_Ok _ _ _ Hc), bind_Ok.
  unfold flip_at. rewrite Hc. reflexivity.
Qed.

Lemma flip_at_length (frame : list ascii) (k : nat) :
  length (flip_at frame k) = length frame.
Proof.
  unfold flip_at. destruct (frame !! k); [apply length_insert | done].
Qed.

Lemma flip_at_other (frame : list ascii) (k i : nat) :
  i <> k -> flip_at frame k !! i = frame !! i.
Proof.
  intros H. unfold flip_at. destruct (frame !! k); [|done].
  apply list_lookup_insert_ne. congruence.
Qed.

Lemma flip_at_changes (frame : list ascii) (k : nat) :
  (k < length frame)%nat -> flip_at frame k !! k <> frame !! k.
Proof.
  intros Hk. unfold flip_at.
  destruct (lookup_lt_is_Some_2 frame k Hk) as [c Hc]. rewrite Hc.
  rewrite list_lookup_insert_eq by done.
  case_bool_decide as E.
  - subst c. discriminate.
  - intros [= H]. apply E. now symmetry.
Qed.

(** X14. The channel on a non-empty frame: it never raises; the frame is
    lost exactly when the loss draw hits (loss comes first and excludes
    corruption); a delivered frame has the length of the sent one and is
    either the sent frame or the sent frame with the character at one
    index changed; without the error flag it is the sent frame. *)
Theorem channel_outcome (frame : list ascii) (flag : bool) (d : draws) :
  frame <> [] ->
  exists outcome,
    simulate_channel_gui frame flag d = Ok outcome
    /\ (outcome = None <-> loss_hit d = true)
    /\ (forall f, outcome = Some f ->
          length f = length frame
          /\ (f = frame
              \/ exists k, (k < length frame)%nat
                           /\ f !! k <> frame !! k
                           /\ forall i, i <> k -> f !! i = frame !! i)
          /\ (flag = false -> f = frame)).
Proof.
  intros Hne. rewrite (simulate_channel_gui_eq frame flag d Hne).
  eexists. split; [reflexivity|].
  assert (Hlen : (0 < length frame)%nat) by (destruct frame; simpl; [done | lia]).
  pose proof (Nat.mod_upper_bound (index_entropy d) (length frame)
                ltac:(lia)) as Hk.
  destruct (loss_hit d).
  - split; [done|]. intros f H. discriminate H.
  - destruct (flag && error_hit d) eqn:Hfe.
    + split; [split; discriminate|]. intros f [= <-].
      split; [apply flip_at_length|]. split.
      * right. eexists. split; [exact Hk|].
        split; [now apply flip_at_changes
               | intros i Hi; now apply flip_at_other].
      * intros ->. discriminate Hfe.
    + split; [split; discriminate|]. intros f [= <-].
      split; [done|]. split; [now left | done].
Qed.

Lemma channel_outcome_witness :
  exists outcome,
    simulate_channel_gui (bits "0001000001111") true draw_flip = Ok outcome
    /\ (outcome = None <-> loss_hit draw_flip = true)
    /\ (forall f, outcome = Some f ->
          length f = length (bits "0001000001111")
          /\ (f = bits "0001000001111"
              \/ exists k, (k < length (bits "0001000001111"))%nat
                           /\ f !! k <> bits "0001000001111" !! k
                           /\ forall i, i <> k ->
                                f !! i = bits "0001000001111" !! i)
          /\ (true = false -> f = bits "0001000001111")).
Proof.
  apply (channel_outcome (bits "0001000001111") true draw_flip).
  discriminate.
Defined.

(** The empty frame with an error draw: [randint(0, -1)] raises. *)
Example channel_empty_frame :
  simulate_channel_gui [] true draw_flip = Raise ValueError.
Proof. reflexivity. Qed.

(** ** Send attempts *)

(** Everything a send attempt does before the receiver comes in. *)
Lemma send_frame_facts (sender receiver : node) :
  polynomial sender = bits "1011" -> polynomial receiver = bits "1011" ->
  0 <= next_frame_to_send sender
    < Z.of_nat (length (send_buffer sender)) ->
  exists data_char frame,
    py_index (send_buffer sender) (next_frame_to_send sender) = Ok data_char
    /\ frame_data sender data_char (next_frame_to_send sender) = Ok frame
    /\ bitstring frame /\ (5 <= length frame)%nat
    /\ unframe_data receiver frame
       = Ok (Some (next_frame_to_send sender `mod` 4),
             Some (decode_bits (payload_bits data_char)), false)
    /\ (forall k, (k < length frame)%nat ->
          unframe_data receiver (flip_at frame k) = Ok (None, None, true))
    /\ (forall flag d,
          channel_output sender flag d
          = Ok (if loss_hit d then None
                else if flag && error_hit d
                     then Some (flip_at frame
                                  (index_entropy d `mod` length frame))
                     else Some frame)).
Proof.
  intros Hp1 Hp2 Hi.
  destruct (py_index_ok _ _ Hi) as [data_char Hdc].
  destruct (unframe_frame_data sender receiver data_char
              (next_frame_to_send sender) Hp1 Hp2)
    as (frame & Hf & Hfb & Hfl & Hu).
  exists data_char, frame. repeat split; try done.
  - intros k Hk.
    destruct (unframe_data_bits receiver frame Hp2 Hfb Hfl)
      as (ok & Hok & Hu').
    rewrite Hu in Hu'. destruct ok; [|discriminate Hu'].
    destruct (flip_at_bits frame k Hfb Hk) as (Hkb & Hkl & _).
    destruct (unframe_data_bits receiver (flip_at frame k) Hp2 Hkb
                ltac:(lia)) as (ok' & Hok' & ->).
    rewrite (check_crc_flip frame k Hfb ltac:(lia) Hk Hok) in Hok'.
    injection Hok' as <-. reflexivity.
  - intros flag d. unfold channel_output.
    rewrite Hdc, bind_Ok, Hf, bind_Ok.
    apply simulate_channel_gui_eq. intros ->. simpl in Hfl. lia.
Qed.

Lemma is_running_check_completion (g : gui) (sender receiver : node) :
  is_running (check_completion g sender receiver)
  = is_running g
    && negb (bool_decide (expected_frame_ack sender
                          = Z.of_nat (length (send_buffer sender)))
             && bool_decide (next_frame_to_deliver receiver
                             = Z.of_nat (length (simulation_data g)))).
Proof.
  unfold check_completion.
  destruct (_ && _); simpl; [now rewrite andb_false_r | now rewrite andb_true_r].
Qed.

Lemma simulation_data_check_completion (g : gui) (sender receiver : node) :
  simulation_data (check_completion g sender receiver) = simulation_data g.
Proof. unfold check_completion. destruct (_ && _); reflexivity. Qed.

(** A step that attempts a send, in full. *)
Lemma send_step (g : gui) (flag : bool) (d : draws) (sender receiver : node) :
  nodes g = Some (sender, receiver) ->
  is_running g = true ->
  can_send_new_frame sender = true ->
  polynomial sender = bits "1011" -> polynomial receiver = bits "1011" ->
  0 <= next_frame_to_send sender ->
  exists data_char frame sender1 receiver1,
    py_index (send_buffer sender) (next_frame_to_send sender) = Ok data_char
    /\ frame_data sender data_char (next_frame_to_send sender) = Ok frame
    /\ after_step g flag d
       = check_completion g (advance sender1) receiver1
    /\ (sender1, receiver1)
       = (if loss_hit d then (sender, receiver)
          else if flag && error_hit d then (sender, receiver)
          else
            let '(receiver', ack, _) :=
              process_received_frame receiver
                (Some (next_frame_to_send sender `mod` 4))
                (decode_bits (payload_bits data_char)) in
            match ack with
            | Some a => (on_ack sender a, receiver')
            | None => (sender, receiver')
            end).
Proof.
  intros Hn Hrun Hcan Hp1 Hp2 Hnfs.
  destruct (can_send_new_frame_true _ Hcan) as [Hlt _].
  destruct (send_frame_facts sender receiver Hp1 Hp2 ltac:(lia))
    as (data_char & frame & Hdc & Hf & Hfb & Hfl & Hu & Hflip & Hch).
  assert (Hk : forall e, (e `mod` length frame < length frame)%nat)
    by (intros e; apply Nat.mod_upper_bound; lia).
  unfold after_step, next_simulation_step.
  rewrite Hrun, Hn, Hcan. cbn [negb]. rewrite Hch, bind_Ok.
  exists data_char, frame.
  destruct (loss_hit d).
  { exists sender, receiver. cbn [receive_and_ack]. rewrite ?bind_Ok. done. }
  destruct (flag && error_hit d).
  { exists sender, receiver. cbn [receive_and_ack].
    rewrite (Hflip _ (Hk _)), ?bind_Ok. done. }
  cbn [receive_and_ack]. rewrite Hu, ?bind_Ok.
  cbn [negb default from_option id].
  destruct (process_received_frame receiver
              (Some (next_frame_to_send sender `mod` 4))
              (decode_bits (payload_bits data_char)))
    as [[receiver' [a|]] out]; rewrite ?bind_Ok; eauto 10.
Qed.

(** ** What a step can change *)

Lemma receive_and_ack_receiver (sender receiver : node)
  (received : option (list ascii)) (sender' receiver' : node) :
  receive_and_ack sender receiver received = Ok (sender', receiver') ->
  next_frame_to_deliver receiver <= next_frame_to_deliver receiver'.
Proof.
  unfold receive_and_ack. destruct received as [frame|].
  - intros ([[seq_num data] corrupted] & Hu & H)%bind_inv.
    destruct corrupted; simpl in H.
    + injection H as <- <-. lia.
    + destruct (process_received_frame receiver seq_num (default [] data))
        as [[rc' ack] out] eqn:Hp.
      destruct (process_step _ _ _ _ _ _ Hp) as (Hle & _).
      destruct ack as [ack|]; injection H as <- <-; exact Hle.
  - intros [= <- <-]. lia.
Qed.

Lemma after_step_effect (g : gui) (flag : bool) (d : draws)
  (sender receiver : node) :
  nodes g = Some (sender, receiver) ->
  exists sender' receiver',
    nodes (after_step g flag d) = Some (sender', receiver')
    /\ simulation_data (after_step g flag d) = simulation_data g
    /\ polynomial sender' = polynomial sender
    /\ polynomial receiver' = polynomial receiver
    /\ send_buffer sender' = send_buffer sender
    /\ window_size sender' = window_size sender
    /\ expected_frame_ack sender <= expected_frame_ack sender'
    /\ next_frame_to_deliver receiver <= next_frame_to_deliver receiver'
    /\ (next_frame_to_send sender' = next_frame_to_send sender
        \/ (next_frame_to_send sender' = next_frame_to_send sender + 1
            /\ can_send_new_frame sender = true
            /\ is_running g = true)).
Proof.
  intros Hn.
  assert (Hsame : forall g', nodes g' = Some (sender, receiver) ->
                             simulation_data g' = simulation_data g ->
            exists sender' receiver',
              nodes g' = Some (sender', receiver')
              /\ simulation_data g' = simulation_data g
              /\ polynomial sender' = polynomial sender
              /\ polynomial receiver' = polynomial receiver
              /\ send_buffer sender' = send_buffer sender
              /\ window_size sender' = window_size sender
              /\ expected_frame_ack sender <= expected_frame_ack sender'
              /\ next_frame_to_deliver receiver
                 <= next_frame_to_deliver receiver'
              /\ (next_frame_to_send sender' = next_frame_to_send sender
                  \/ (next_frame_to_send sender'
                      = next_frame_to_send sender + 1
                      /\ can_send_new_frame sender = true
                      /\ is_running g = true))).
  { intros g' H1 H2. exists sender, receiver.
    repeat split; first [done | lia | now left]. }
  unfold after_step.
  destruct (next_simulation_step g flag d) as [g'|e] eqn:Hs; [|auto].
  unfold next_simulation_step in Hs.
  destruct (is_running g) eqn:Hrun; simpl in Hs;
    [|injection Hs as <-; auto].
  rewrite Hn in Hs.
  destruct (can_send_new_frame sender) eqn:Hcan.
  - apply bind_inv in Hs. destruct Hs as (received & Hch & Hs).
    apply bind_inv in Hs. destruct Hs as ([sender1 receiver1] & Hra & Hs).
    injection Hs as <-.
    destruct (receive_and_ack_inv _ _ _ _ _ Hra) as [Hsd Hrc].
    pose proof (receive_and_ack_receiver _ _ _ _ _ Hra) as Hntd.
    exists (advance sender1), receiver1.
    split; [apply check_completion_nodes|].
    split; [apply simulation_data_check_completion|].
    unfold advance.
    cbn [polynomial send_buffer window_size expected_frame_ack
         next_frame_to_send].
    destruct Hsd as [-> | [ack ->]].
    + repeat split;
        first [done | lia | right; repeat split; first [done | lia]].
    + destruct (on_ack_fields sender ack) as (-> & -> & -> & -> & Hle).
      repeat split;
        first [done | lia | right; repeat split; first [done | lia]].
  - case_bool_decide; injection Hs as <-.
    + apply Hsame; [apply check_completion_nodes
                   | apply simulation_data_check_completion].
    + apply Hsame; [exact Hn | reflexivity].
Qed.

(** X15. Every bit error of the channel is caught: in a reachable
    running state whose sender can send, a step in which the channel
    delivers the frame with a bit flipped leaves the receiver exactly as
    it was and changes the sender only by advancing
    [next_frame_to_send]; no acknowledgment is produced. *)
Theorem bit_error_rejected (g : gui) (d : draws) (sender receiver : node) :
  reachable g ->
  nodes g = Some (sender, receiver) ->
  is_running g = true ->
  can_send_new_frame sender = true ->
  loss_hit d = false -> error_hit d = true ->
  nodes (after_step g true d) = Some (advance sender, receiver).
Proof.
  intros Hr Hn Hrun Hcan Hloss Herr.
  destruct (reachable_nodes_ok g Hr _ _ Hn) as (Hp1 & Hp2 & Hnfs & _).
  destruct (send_step g true d sender receiver Hn Hrun Hcan Hp1 Hp2 Hnfs)
    as (data_char & frame & sender1 & receiver1 & _ & _ & -> & Heq).
  rewrite Hloss, Herr in Heq. simpl in Heq. injection Heq as -> ->.
  apply check_completion_nodes.
Qed.

Lemma bit_error_rejected_witness :
  nodes (after_step (start_simulation initial_gui [65%N; 66%N] true)
           true draw_flip)
  = Some (advance {| polynomial := bits "1011";
                     send_buffer := [[65%N]; [66%N]];
                     next_frame_to_send := 0;
                     expected_frame_ack := 0;
                     window_size := 3;
                     received_frames := ∅;
                     next_frame_to_deliver := 0 |},
          new_node).
Proof.
  apply (bit_error_rejected
           (start_simulation initial_gui [65%N; 66%N] true) draw_flip).
  - repeat constructor.
  - reflexivity.
  - reflexivity.
  - reflexivity.
  - reflexivity.
  - reflexivity.
Defined.

Lemma reachable_sender_bounds (g : gui) :
  reachable g ->
  forall sender receiver,
    nodes g = Some (sender, receiver) ->
    0 <= next_frame_to_send sender
      <= Z.of_nat (length (send_buffer sender)).
Proof.
  induction 1 as [| g data_input ok _ IH | g flag d _ IH | g ack _ IH | g _ IH];
    intros sender receiver Hn.
  - discriminate.
  - unfold start_simulation in Hn.
    destruct (is_running g); [eauto|].
    case_bool_decide; [eauto|]. destruct ok; simpl in Hn; [|eauto].
    injection Hn as <- <-. simpl. lia.
  - destruct (nodes g) as [[sd rc]|] eqn:Hg.
    + destruct (after_step_effect g flag d sd rc Hg)
        as (sd' & rc' & Hn' & _ & _ & _ & Hbuf & _ & _ & _ & Hnfs).
      rewrite Hn' in Hn. injection Hn as <- <-.
      specialize (IH sd rc eq_refl). rewrite Hbuf.
      destruct Hnfs as [-> | (-> & Hcan & _)]; [done|].
      destruct (can_send_new_frame_true _ Hcan). lia.
    + exfalso. unfold after_step, next_simulation_step in Hn.
      rewrite Hg in Hn. destruct (is_running g); simpl in Hn; congruence.
  - unfold deliver_ack in Hn.
    destruct (nodes g) as [[sd rc]|] eqn:Hg; [|congruence].
    cbn [nodes] in Hn. injection Hn as <- <-.
    destruct (on_ack_fields sd ack) as (_ & -> & -> & _).
    now apply (IH sd rc).
  - discriminate.
Qed.

(** X16. The send pointer stays inside the buffer: in every reachable
    state [0 <= next_frame_to_send <= len(send_buffer)], so the index
    [send_buffer[next_frame_to_send]] of a send attempt is always in
    range. *)
Theorem sender_pointer_in_buffer (g : gui) (sender receiver : node) :
  reachable g ->
  nodes g = Some (sender, receiver) ->
  0 <= next_frame_to_send sender <= Z.of_nat (length (send_buffer sender)).
Proof. intros Hr Hn. exact (reachable_sender_bounds g Hr _ _ Hn). Qed.

Lemma sender_pointer_in_buffer_witness :
  exists sender receiver,
    nodes run_hi = Some (sender, receiver)
    /\ 0 <= next_frame_to_send sender
         <= Z.of_nat (length (send_buffer sender)).
Proof.
  destruct (nodes run_hi) as [[sender receiver]|] eqn:E;
    [|vm_compute in E; discriminate E].
  exists sender, receiver. split; [reflexivity|].
  apply (sender_pointer_in_buffer run_hi sender receiver).
  - exact run_hi_reachable.
  - exact E.
Defined.

(** X17. What one step can change: it keeps [send_buffer],
    [window_size], both generators and [simulation_data]; it never
    decreases [expected_frame_ack] or the receiver's
    [next_frame_to_deliver]; and it leaves [next_frame_to_send] alone or
    adds one to it, the latter only in a running state whose sender can
    send. *)
Theorem step_effect (g : gui) (flag : bool) (d : draws)
  (sender receiver : node) :
  nodes g = Some (sender, receiver) ->
  exists sender' receiver',
    nodes (after_step g flag d) = Some (sender', receiver')
    /\ simulation_data (after_step g flag d) = simulation_data g
    /\ polynomial sender' = polynomial sender
    /\ polynomial receiver' = polynomial receiver
    /\ send_buffer sender' = send_buffer sender
    /\ window_size sender' = window_size sender
    /\ expected_frame_ack sender <= expected_frame_ack sender'
    /\ next_frame_to_deliver receiver <= next_frame_to_deliver receiver'
    /\ (next_frame_to_send sender' = next_frame_to_send sender
        \/ (next_frame_to_send sender' = next_frame_to_send sender + 1
            /\ can_send_new_frame sender = true
            /\ is_running g = true)).
Proof. apply after_step_effect. Qed.

Lemma step_effect_witness :
  exists sender' receiver',
    nodes (after_step run_hi true draw_clean) = Some (sender', receiver')
    /\ simulation_data (after_step run_hi true draw_clean)
       = simulation_data run_hi
    /\ polynomial sender' = bits "1011"
    /\ polynomial receiver' = bits "1011"
    /\ send_buffer sender' = [[72%N]; [105%N]]
    /\ window_size sender' = 3
    /\ 2 <= expected_frame_ack sender'
    /\ 1 <= next_frame_to_deliver receiver'
    /\ (next_frame_to_send sender' = 2
        \/ (next_frame_to_send sender' = 2 + 1
            /\ can_send_new_frame
                 {| polynomial := bits "1011";
                    send_buffer := [[72%N]; [105%N]];
                    next_frame_to_send := 2;
                    expected_frame_ack := 2;
                    window_size := 3;
                    received_frames := ∅;
                    next_frame_to_deliver := 0 |} = true
            /\ is_running run_hi = true)).
Proof.
  apply (step_effect run_hi true draw_clean
           {| polynomial := bits "1011";
              send_buffer := [[72%N]; [105%N]];
              next_frame_to_send := 2;
              expected_frame_ack := 2;
              window_size := 3;
              received_frames := ∅;
              next_frame_to_deliver := 0 |}
           {| polynomial := bits "1011";
              send_buffer := [];
              next_frame_to_send := 0;
              expected_frame_ack := 0;
              window_size := 3;
              received_frames := ∅;
              next_frame_to_deliver := 1 |}).
  vm_compute. reflexivity.
Defined.

(** ** Runs that never finish *)

Lemma waiting_step (g : gui) (flag : bool) (d : draws)
  (sender receiver : node) :
  nodes g = Some (sender, receiver) ->
  is_running g = true ->
  can_send_new_frame sender = false ->
  expected_frame_ack sender < Z.of_nat (length (send_buffer sender)) ->
  after_step g flag d = g.
Proof.
  intros Hn Hrun Hcan Hefa.
  unfold after_step, next_simulation_step.
  rewrite Hrun, Hn, Hcan. cbn [negb].
  rewrite bool_decide_eq_true_2 by done.
  unfold check_completion.
  rewrite (bool_decide_eq_false_2
             (expected_frame_ack sender
              = Z.of_nat (length (send_buffer sender)))) by lia.
  cbn [andb]. destruct g; simpl in *. now subst.
Qed.

(** X18. No retransmission: a running state whose sender cannot send
    while frames are still unacknowledged is a fixed point of the step,
    whatever the channel draws are; no number of further clicks changes
    anything, and the run never finishes. *)
Theorem waiting_is_stuck (g : gui) (sender receiver : node)
  (clicks : list (bool * draws)) :
  nodes g = Some (sender, receiver) ->
  is_running g = true ->
  can_send_new_frame sender = false ->
  expected_frame_ack sender < Z.of_nat (length (send_buffer sender)) ->
  run_steps g clicks = g.
Proof.
  intros Hn Hrun Hcan Hefa. unfold run_steps.
  induction clicks as [|click clicks IH]; simpl; [done|].
  now rewrite (waiting_step g _ _ sender receiver Hn Hrun Hcan Hefa).
Qed.

Lemma waiting_is_stuck_witness :
  run_steps
    (after_step (start_simulation initial_gui [65%N] true) false draw_lost)
    [(false, draw_clean); (true, draw_flip); (false, draw_lost)]
  = after_step (start_simulation initial_gui [65%N] true) false draw_lost.
Proof.
  apply (waiting_is_stuck
           (after_step (start_simulation initial_gui [65%N] true)
              false draw_lost)
           {| polynomial := bits "1011";
              send_buffer := [[65%N]];
              next_frame_to_send := 1;
              expected_frame_ack := 0;
              window_size := 3;
              received_frames := ∅;
              next_frame_to_deliver := 0 |}
           new_node).
  - vm_compute. reflexivity.
  - vm_compute. reflexivity.
  - vm_compute. reflexivity.
  - simpl. lia.
Defined.

Lemma stalled_step (g : gui) (flag : bool) (d : draws) :
  stalled g -> stalled (after_step g flag d).
Proof.
  intros (Hrun & sd & rc & Hn & Hp1 & Hp2 & Hefa & Hws & Hntd & Hnfs & Hlen).
  destruct (can_send_new_frame sd) eqn:Hcan.
  - destruct (can_send_new_frame_true _ Hcan) as [Hlt Hwin].
    destruct (send_step g flag d sd rc Hn Hrun Hcan Hp1 Hp2 ltac:(lia))
      as (data_char & frame & sd1 & rc1 & _ & _ & -> & Heq).
    assert (Hres : sd1 = sd
                   /\ polynomial rc1 = bits "1011"
                   /\ next_frame_to_deliver rc1 = 0).
    { destruct (loss_hit d); [injection Heq as -> ->; done|].
      destruct (flag && error_hit d); [injection Heq as -> ->; done|].
      rewrite Z.mod_small in Heq by lia.
      destruct (process_cases rc (next_frame_to_send sd)
                  (decode_bits (payload_bits data_char)))
        as [(He & _) | [(_ & Hpr) | (Hl & _)]]; [lia | | lia].
      rewrite Hpr, Hntd in Heq.
      rewrite bool_decide_eq_false_2 in Heq by lia.
      injection Heq as -> ->. done. }
    destruct Hres as (-> & Hp2' & Hntd').
    split.
    + rewrite is_running_check_completion, Hrun.
      cbn [advance expected_frame_ack send_buffer].
      rewrite (bool_decide_eq_false_2
                 (expected_frame_ack sd = Z.of_nat (length (send_buffer sd))))
        by lia.
      reflexivity.
    + exists (advance sd), rc1.
      split; [apply check_completion_nodes|].
      unfold advance.
      cbn [polynomial expected_frame_ack window_size next_frame_to_send
           send_buffer].
      repeat split; first [done | lia].
  - rewrite (waiting_step g flag d sd rc Hn Hrun Hcan ltac:(lia)).
    split; [done|]. exists sd, rc. repeat split; done.
Qed.

Lemma start_simulation_fresh (data_input : list N) :
  data_input <> [] ->
  start_simulation initial_gui data_input true = clean_state data_input 0.
Proof.
  intros Hne. unfold start_simulation, clean_state.
  cbn [is_running initial_gui negb].
  rewrite bool_decide_eq_false_2 by done.
  rewrite bool_decide_eq_true_2
    by (destruct data_input; simpl; [done | lia]).
  reflexivity.
Qed.

(** X19. A lost first frame is never repaired: if the first frame of a
    run is lost in the channel, then after any further clicks, whatever
    the channel draws, the run is still running, the window base is
    still 0 and the receiver has still delivered nothing. *)
Theorem lost_first_frame_hangs (data_input : list N) (flag : bool)
  (d : draws) (clicks : list (bool * draws)) :
  data_input <> [] ->
  loss_hit d = true ->
  let g := run_steps
             (after_step (start_simulation initial_gui data_input true)
                flag d)
             clicks in
  is_running g = true
  /\ exists sender receiver,
       nodes g = Some (sender, receiver)
       /\ expected_frame_ack sender = 0
       /\ next_frame_to_deliver receiver = 0.
Proof.
  intros Hne Hloss g.
  assert (Hst : stalled g).
  { subst g. unfold run_steps.
    assert (H0 : stalled (after_step
                            (start_simulation initial_gui data_input true)
                            flag d)).
    { rewrite (start_simulation_fresh _ Hne).
      assert (Hlen : (1 <= length data_input)%nat)
        by (destruct data_input; simpl; [done | lia]).
      destruct (send_step (clean_state data_input 0) flag d _ _ eq_refl)
        as (data_char & frame & sd1 & rc1 & _ & _ & -> & Heq);
        try reflexivity.
      { simpl. now rewrite bool_decide_eq_true_2 by lia. }
      { unfold can_send_new_frame. simpl. rewrite length_map.
        now rewrite !bool_decide_eq_true_2 by lia. }
      rewrite Hloss in Heq. injection Heq as -> ->.
      split.
      - rewrite is_running_check_completion. simpl. rewrite length_map.
        rewrite bool_decide_eq_true_2 by lia.
        rewrite (bool_decide_eq_false_2 (0 = Z.of_nat (length data_input)))
          by lia.
        reflexivity.
      - eexists _, _. split; [apply check_completion_nodes|].
        simpl. rewrite length_map. repeat split; first [done | lia]. }
    revert H0. generalize (after_step
                             (start_simulation initial_gui data_input true)
                             flag d).
    induction clicks as [|click clicks IH]; intros g0 H0; simpl; [done|].
    apply IH. now apply stalled_step. }
  destruct Hst as (Hrun & sd & rc & Hn & _ & _ & Hefa & _ & Hntd & _).
  split; [done|]. exists sd, rc. done.
Qed.

Lemma lost_first_frame_hangs_witness :
  let g := run_steps
             (after_step (start_simulation initial_gui [72%N; 105%N] true)
                false draw_lost)
             [(false, draw_clean); (true, draw_flip); (false, draw_clean)] in
  is_running g = true
  /\ exists sender receiver,
       nodes g = Some (sender, receiver)
       /\ expected_frame_ack sender = 0
       /\ next_frame_to_deliver receiver = 0.
Proof.
  apply (lost_first_frame_hangs [72%N; 105%N] false draw_lost
           [(false, draw_clean); (true, draw_flip); (false, draw_clean)]).
  - discriminate.
  - reflexivity.
Defined.

Lemma on_ack_bound (sender : node) (a bound : Z) :
  expected_frame_ack sender <= bound -> a + 1 <= bound ->
  expected_frame_ack (on_ack sender a) <= bound.
Proof. unfold on_ack. case_bool_decide; simpl; lia. Qed.

Lemma capped_step (g : gui) (flag : bool) (d : draws) :
  capped g -> capped (after_step g flag d).
Proof.
  intros (Hrun & sd & rc & Hn & Hp1 & Hp2 & Hnfs & Hefa & Hntd & Hkeys & Hlen).
  destruct (can_send_new_frame sd) eqn:Hcan.
  - destruct (send_step g flag d sd rc Hn Hrun Hcan Hp1 Hp2 Hnfs)
      as (data_char & frame & sd1 & rc1 & _ & _ & -> & Heq).
    assert (Hres : polynomial sd1 = bits "1011"
                   /\ send_buffer sd1 = send_buffer sd
                   /\ next_frame_to_send sd1 = next_frame_to_send sd
                   /\ expected_frame_ack sd1 <= 4
                   /\ polynomial rc1 = bits "1011"
                   /\ next_frame_to_deliver rc1 <= 4
                   /\ (forall j, is_Some (received_frames rc1 !! j) ->
                                 j <= 3)).
    { destruct (loss_hit d); [injection Heq as -> ->; done|].
      destruct (flag && error_hit d); [injection Heq as -> ->; done|].
      pose proof (Z.mod_pos_bound (next_frame_to_send sd) 4 eq_refl) as Hs.
      set (s := next_frame_to_send sd `mod` 4) in *.
      destruct (process_cases rc s (decode_bits (payload_bits data_char)))
        as [(He & k & frames' & out & Hpr & Hexit & Hmap & Hlen' & Hout)
           | [(Hgt & Hpr) | (Hlt & Hpr)]];
        rewrite Hpr in Heq.
      - injection Heq as -> ->.
        destruct (on_ack_fields sd s) as (-> & -> & -> & _).
        cbn [polynomial next_frame_to_deliver received_frames].
        repeat split; try done.
        + apply on_ack_bound; lia.
        + destruct k as [|k]; [lia|].
          destruct (Hout k ltac:(lia)) as (d' & Hd' & _).
          specialize (Hkeys _ (mk_is_Some _ _ Hd')). lia.
        + intros j Hj. rewrite Hmap in Hj.
          case_bool_decide; [by destruct Hj | auto].
      - assert (Hrc : forall j,
                   is_Some (<[s := decode_bits (payload_bits data_char)]>
                              (received_frames rc) !! j) -> j <= 3).
        { intros j Hj. destruct (decide (j = s)) as [-> | Hne]; [lia|].
          rewrite lookup_insert_ne in Hj by done. auto. }
        case_bool_decide; injection Heq as -> ->;
          cbn [polynomial next_frame_to_deliver received_frames].
        + destruct (on_ack_fields sd (next_frame_to_deliver rc - 1))
            as (-> & -> & -> & _).
          repeat split; try done. apply on_ack_bound; lia.
        + repeat split; done.
      - injection Heq as -> ->.
        destruct (on_ack_fields sd s) as (-> & -> & -> & _).
        repeat split; try done. apply on_ack_bound; lia. }
    destruct Hres as (Hq1 & Hq2 & Hq3 & Hq4 & Hq5 & Hq6 & Hq7).
    split.
    + rewrite is_running_check_completion, Hrun.
      cbn [advance expected_frame_ack send_buffer].
      rewrite (bool_decide_eq_false_2
                 (expected_frame_ack sd1
                  = Z.of_nat (length (send_buffer sd1)))) by (rewrite Hq2; lia).
      reflexivity.
    + exists (advance sd1), rc1.
      split; [apply check_completion_nodes|].
      unfold advance.
      cbn [polynomial expected_frame_ack next_frame_to_send send_buffer].
      rewrite Hq2, Hq3. repeat split; first [done | lia].
  - rewrite (waiting_step g flag d sd rc Hn Hrun Hcan ltac:(lia)).
    split; [done|]. exists sd, rc. repeat split; done.
Qed.

(** X20. Transfers of five or more characters never finish: sequence
    numbers wrap at 4 on the wire but are compared unwrapped, so after
    any sequence of clicks, whatever the channel draws (a perfect
    channel included), a run started on at least five characters is
    still running, with window base and delivery point at most 4. *)
Theorem long_transfer_hangs (data_input : list N)
  (clicks : list (bool * draws)) :
  (5 <= length data_input)%nat ->
  let g := run_steps (start_simulation initial_gui data_input true) clicks in
  is_running g = true
  /\ exists sender receiver,
       nodes g = Some (sender, receiver)
       /\ expected_frame_ack sender <= 4
       /\ next_frame_to_deliver receiver <= 4.
Proof.
  intros Hlen g.
  assert (Hc : capped g).
  { subst g. unfold run_steps.
    assert (H0 : capped (start_simulation initial_gui data_input true)).
    { rewrite start_simulation_fresh by (intros ->; simpl in Hlen; lia).
      split.
      - simpl. now rewrite bool_decide_eq_true_2 by lia.
      - eexists _, _. split; [reflexivity|]. simpl. rewrite length_map.
        repeat split; try done; try lia.
        intros j [x Hx]. discriminate Hx. }
    revert H0. generalize (start_simulation initial_gui data_input true).
    induction clicks as [|click clicks IH]; intros g0 H0; simpl; [done|].
    apply IH. now apply capped_step. }
  destruct Hc as (Hrun & sd & rc & Hn & _ & _ & _ & Hefa & Hntd & _).
  split; [done|]. exists sd, rc. done.
Qed.

Lemma long_transfer_hangs_witness :
  let g := run_steps
             (start_simulation initial_gui
                [72%N; 101%N; 108%N; 108%N; 111%N] true)
             (replicate 9 (false, draw_clean)) in
  is_running g = true
  /\ exists sender receiver,
       nodes g = Some (sender, receiver)
       /\ expected_frame_ack sender <= 4
       /\ next_frame_to_deliver receiver <= 4.
Proof.
  apply (long_transfer_hangs [72%N; 101%N; 108%N; 108%N; 111%N]
           (replicate 9 (false, draw_clean))).
  simpl. lia.
Defined.

(** The default entry "Hello" on a perfect channel: four units go
    through, then the sender runs to the end of its window and waits. *)
Example hello_hangs :
  run_steps (start_simulation initial_gui
               [72%N; 101%N; 108%N; 108%N; 111%N] true)
    (replicate 9 (false, draw_clean))
  = {| nodes :=
         Some ({| polynomial := bits "1011";
                  send_buffer := [[72%N]; [101%N]; [108%N]; [108%N]; [111%N]];
                  next_frame_to_send := 5;
                  expected_frame_ack := 4;
                  window_size := 3;
                  received_frames := ∅;
                  next_frame_to_deliver := 0 |},
               {| polynomial := bits "1011";
                  send_buffer := [];
                  next_frame_to_send := 0;
                  expected_frame_ack := 0;
                  window_size := 3;
                  received_frames := ∅;
                  next_frame_to_deliver := 4 |});
       simulation_data := [[72%N]; [101%N]; [108%N]; [108%N]; [111%N]];
       is_running := true |}.
Proof. vm_compute. reflexivity. Qed.

(** ** Runs that finish *)

Lemma clean_step (data : list N) (k : Z) (click : bool * draws) :
  0 <= k < Z.of_nat (length data) -> k < 4 -> clean_click click ->
  after_step (clean_state data k) click.1 click.2 = clean_state data (k + 1).
Proof.
  intros Hk H4 [Hloss Herr].
  destruct (send_step (clean_state data k) click.1 click.2 _ _ eq_refl)
    as (data_char & frame & sd1 & rc1 & _ & _ & -> & Heq);
    try reflexivity.
  { simpl. now rewrite bool_decide_eq_true_2 by lia. }
  { unfold can_send_new_frame. simpl. rewrite length_map.
    now rewrite !bool_decide_eq_true_2 by lia. }
  { simpl. lia. }
  rewrite Hloss, Herr in Heq.
  cbn [next_frame_to_send] in Heq. rewrite Z.mod_small in Heq by lia.
  unfold process_received_frame in Heq.
  cbn [next_frame_to_deliver received_frames] in Heq.
  rewrite bool_decide_eq_true_2 in Heq by reflexivity.
  rewrite map_size_empty in Heq. cbn [drain] in Heq.
  unfold on_ack in Heq. cbn [expected_frame_ack] in Heq.
  rewrite bool_decide_eq_true_2 in Heq by lia.
  injection Heq as -> ->.
  unfold check_completion, advance, clean_state, end_simulation.
  cbn [expected_frame_ack send_buffer next_frame_to_deliver simulation_data
       polynomial next_frame_to_send window_size received_frames nodes
       is_running].
  rewrite !length_map.
  destruct (decide (k + 1 = Z.of_nat (length data))) as [He | Hne].
  - rewrite !bool_decide_eq_true_2 by done. cbn [andb].
    rewrite (bool_decide_eq_false_2 (k + 1 < Z.of_nat (length data))) by lia.
    reflexivity.
  - rewrite (bool_decide_eq_false_2 (k + 1 = Z.of_nat (length data))) by done.
    cbn [andb].
    rewrite !bool_decide_eq_true_2 by lia. reflexivity.
Qed.

Lemma clean_steps (data : list N) (clicks : list (bool * draws)) (k : Z) :
  0 <= k -> k + Z.of_nat (length clicks) <= Z.of_nat (length data) ->
  k + Z.of_nat (length clicks) <= 4 ->
  Forall clean_click clicks ->
  run_steps (clean_state data k) clicks
  = clean_state data (k + Z.of_nat (length clicks)).
Proof.
  intros Hk Hlen H4 Hcl. revert k Hk Hlen H4. unfold run_steps.
  induction Hcl as [|click clicks Hc _ IH]; intros k Hk Hlen H4.
  - simpl. now rewrite Z.add_0_r.
  - cbn [fold_left length] in *.
    rewrite clean_step by (try done; lia).
    rewrite IH by lia. f_equal. lia.
Qed.

(** X21. Short transfers on a clean channel finish: for a non-empty
    input of at most four characters, [m] clicks whose frames are
    neither lost nor corrupted ([m] at most the number of characters)
    lead to the state in which the send pointer, the window base and the
    receiver's delivery point all equal [m] and the receive buffer is
    empty; the run is running while [m] is below the number of
    characters and finished exactly when [m] reaches it. *)
Theorem clean_run_completes (data_input : list N)
  (clicks : list (bool * draws)) :
  data_input <> [] -> (length data_input <= 4)%nat ->
  (length clicks <= length data_input)%nat ->
  Forall clean_click clicks ->
  run_steps (start_simulation initial_gui data_input true) clicks
  = clean_state data_input (Z.of_nat (length clicks)).
Proof.
  intros Hne H4 Hm Hcl.
  rewrite (start_simulation_fresh _ Hne).
  rewrite clean_steps by (try done; lia). reflexivity.
Qed.

Lemma clean_run_completes_witness :
  run_steps (start_simulation initial_gui [72%N; 105%N; 33%N] true)
    [(false, draw_clean); (true, draw_clean); (false, draw_clean)]
  = clean_state [72%N; 105%N; 33%N] (Z.of_nat 3).
Proof.
  apply (clean_run_completes [72%N; 105%N; 33%N]
           [(false, draw_clean); (true, draw_clean); (false, draw_clean)]).
  - discriminate.
  - simpl. lia.
  - simpl. lia.
  - repeat constructor.
Defined.

Lemma receive_and_ack_acked (sender receiver : node)
  (received : option (list ascii)) (sender' receiver' : node) :
  receive_and_ack sender receiver received = Ok (sender', receiver') ->
  expected_frame_ack sender <= next_frame_to_deliver receiver ->
  expected_frame_ack sender' <= next_frame_to_deliver receiver'
  /\ send_buffer sender' = send_buffer sender.
Proof.
  unfold receive_and_ack. destruct received as [frame|].
  - intros ([[seq_num data] corrupted] & Hu & H)%bind_inv Hle.
    destruct corrupted; simpl in H.
    + injection H as <- <-. done.
    + destruct (process_received_frame receiver seq_num (default [] data))
        as [[rc' ack] out] eqn:Hp.
      destruct (process_step _ _ _ _ _ _ Hp) as (Hmono & _ & Hack & _).
      destruct ack as [ack|]; injection H as <- <-.
      * destruct (on_ack_fields sender ack) as (_ & -> & _).
        split; [|done]. apply on_ack_bound; [lia|].
        specialize (Hack ack eq_refl). lia.
      * split; [lia | done].
  - intros [= <- <-] Hle. done.
Qed.

Lemma acked_delivered_step (data : list N) (g : gui) (flag : bool)
  (d : draws) :
  acked_delivered data g -> acked_delivered data (after_step g flag d).
Proof.
  intros (sd & rc & Hn & Hbuf & Hle & Hfin).
  unfold after_step.
  destruct (next_simulation_step g flag d) as [g'|e] eqn:Hs;
    [|exists sd, rc; done].
  unfold next_simulation_step in Hs.
  destruct (is_running g) eqn:Hrun; simpl in Hs;
    [|injection Hs as <-; exists sd, rc; rewrite Hrun; done].
  rewrite Hn in Hs.
  destruct (can_send_new_frame sd) eqn:Hcan.
  - apply bind_inv in Hs. destruct Hs as (received & Hch & Hs).
    apply bind_inv in Hs. destruct Hs as ([sd1 rc1] & Hra & Hs).
    injection Hs as <-.
    destruct (receive_and_ack_acked _ _ _ _ _ Hra Hle) as [Hle1 Hbuf1].
    exists (advance sd1), rc1.
    split; [apply check_completion_nodes|].
    cbn [advance send_buffer expected_frame_ack].
    split; [congruence|]. split; [done|].
    rewrite is_running_check_completion, Hrun. cbn [andb].
    cbn [advance send_buffer expected_frame_ack].
    intros Hstop. apply negb_false_iff, andb_prop in Hstop.
    destruct Hstop as [He%bool_decide_eq_true _].
    rewrite He, Hbuf1, Hbuf, length_map. lia.
  - case_bool_decide as Hw; injection Hs as <-.
    + exists sd, rc. split; [apply check_completion_nodes|].
      split; [done|]. split; [done|].
      rewrite is_running_check_completion, Hrun. cbn [andb].
      intros Hstop. apply negb_false_iff, andb_prop in Hstop.
      destruct Hstop as [He%bool_decide_eq_true _].
      rewrite He, Hbuf, length_map. lia.
    + exists sd, rc. split; [done|]. split; [done|]. split; [done|].
      intros _. rewrite Hbuf, length_map in Hw. lia.
Qed.

(** X22. Acknowledged means delivered, finished means everything
    delivered: in every state of a run driven by clicks alone, the
    window base never exceeds the receiver's delivery point, and once
    the run has stopped both have reached the number of characters of
    the input. *)
Theorem finished_means_delivered (data_input : list N)
  (clicks : list (bool * draws)) :
  data_input <> [] ->
  let g := run_steps (start_simulation initial_gui data_input true) clicks in
  exists sender receiver,
    nodes g = Some (sender, receiver)
    /\ expected_frame_ack sender <= next_frame_to_deliver receiver
    /\ (is_running g = false ->
        Z.of_nat (length data_input) <= expected_frame_ack sender
        /\ Z.of_nat (length data_input) <= next_frame_to_deliver receiver).
Proof.
  intros Hne g.
  assert (Hinv : acked_delivered data_input g).
  { subst g. unfold run_steps.
    assert (H0 : acked_delivered data_input
                   (start_simulation initial_gui data_input true)).
    { rewrite (start_simulation_fresh _ Hne).
      eexists _, _. split; [reflexivity|]. simpl.
      split; [done|]. split; [lia|].
      intros H%bool_decide_eq_false. destruct data_input; simpl in *; [done|lia]. }
    revert H0. generalize (start_simulation initial_gui data_input true).
    induction clicks as [|click clicks IH]; intros g0 H0; simpl; [done|].
    apply IH. now apply acked_delivered_step. }
  destruct Hinv as (sd & rc & Hn & _ & Hle & Hfin).
  exists sd, rc. split; [done|]. split; [done|].
  intros Hstop. specialize (Hfin Hstop). lia.
Qed.

Lemma finished_means_delivered_witness :
  let g := run_steps (start_simulation initial_gui [72%N; 105%N] true)
             [(true, draw_flip); (false, draw_clean); (false, draw_clean)] in
  exists sender receiver,
    nodes g = Some (sender, receiver)
    /\ expected_frame_ack sender <= next_frame_to_deliver receiver
    /\ (is_running g = false ->
        Z.of_nat (length [72%N; 105%N]) <= expected_frame_ack sender
        /\ Z.of_nat (length [72%N; 105%N]) <= next_frame_to_deliver receiver).
Proof.
  apply (finished_means_delivered [72%N; 105%N]
           [(true, draw_flip); (false, draw_clean); (false, draw_clean)]).
  discriminate.
Defined.
